(** * Value screening of an equity index: a shallow embedding of
      [Value_Screening.py] and the properties of its screening pipeline.

    The script builds query items for a remote data service by operator
    overloading, asks the service for the number of index members, derives
    a threshold rank with Python float arithmetic, filters the universe by
    three rank criteria and assembles the surviving identifiers with their
    factor values in a table.

    - [Binary64] models the Python floats of [threshold_rank] bit for bit,
      on the IEEE-754 specification of the Standard Library.
    - [item], [pred], [univ] and [Request] are the query objects the script
      builds; [eval], [holds], [eval_univ] and [exec] give them the meaning
      the data service gives them.  The two group functions the source
      leaves to the service, [znav] and [rank], are the methods of the
      class [Backend].
    - [Run] is the monad of the script: it may raise, and it logs every
      request handed to [bq.execute]. *)

From Stdlib Require Import ZArith List String Bool Lia Reals Lra Permutation.
From Stdlib Require Import Floats.SpecFloat.
Import ListNotations.

Local Open Scope Z_scope.
Local Open Scope string_scope.

(** ** Python floats *)

Module Binary64.

Local Open Scope Z_scope.

Definition prec : Z := 53.
Definition emax : Z := 1024.

Definition float := spec_float.

(** [a * b] on two floats. *)
Definition mul (x y : float) : float := SFmul prec emax x y.

(** [float(n)]: the conversion applied to an integer operand of [*]. *)
Definition of_int (n : Z) : float := binary_normalize prec emax n 0 false.

(** [int(x)]: truncation toward zero; [None] stands for the [ValueError]
    and [OverflowError] Python raises on NaN and on the infinities. *)
Definition to_int (x : float) : option Z :=
  match x with
  | S754_zero _ => Some 0
  | S754_finite s m e => Some (cond_Zopp s (Z.shiftl (Zpos m) e))
  | S754_infinity _ => None
  | S754_nan => None
  end.

Definition leb (x y : float) : bool := SFleb x y.

Definition valid (x : float) : bool := valid_binary prec emax x.

Definition zero : float := S754_zero false.
Definition one : float := S754_finite false 4503599627370496 (-52).

(** The literal [0.80]: the double nearest to 8/10, which is
    7205759403792794 * 2^-53. *)
Definition lit_0_80 : float := S754_finite false 7205759403792794 (-53).

(** [P / 2^s] rounded to the nearest integer, ties to even ([s > 0]). *)
Definition rne (P s : Z) : Z :=
  if s <=? 0 then P
  else
    let q := P / 2 ^ s in
    let r := P mod 2 ^ s in
    let h := 2 ^ (s - 1) in
    if r <? h then q
    else if h <? r then q + 1
    else if Z.even q then q else q + 1.

(** The double with mantissa [m] and exponent [c] after rounding: a
    mantissa of 2^53 carries into the exponent. *)
Definition pack (sx : bool) (m c : Z) : spec_float :=
  match m with
  | Z0 => S754_zero sx
  | Zpos m' =>
      if m =? 2 ^ 53 then S754_finite sx 4503599627370496 (c + 1)
      else S754_finite sx m' c
  | Zneg _ => S754_nan
  end.

(** The canonical exponent of [P * 2^ex] and the integer part of its
    rounding to 53 bits. *)
Definition cexp (P ex : Z) : Z := fexp 53 1024 (Zdigits2 P + ex).
Definition trunc_round (P ex : Z) : Z :=
  Z.shiftl (rne P (cexp P ex - ex)) (cexp P ex).

(** The floor of the exact product of a double with an integer. *)
Definition floor_product (p : float) (n : Z) : Z :=
  match p with
  | S754_finite s m e => Z.shiftl (cond_Zopp s (Zpos m) * n) e
  | _ => 0
  end.

(** The double nearest to 1/3. *)
Definition third : float := S754_finite false 6004799503160661 (-54).

(** A threshold percentage: a double between 0 and 1. *)
Definition percentage (p : spec_float) : bool :=
  valid p && leb zero p && leb p one.

(** What [percentage] says of a positive finite double. *)
Record unit_double (mp : positive) (ep : Z) : Prop := {
  ud_exp : -1074 <= ep <= -52;
  ud_digits : Zdigits2 (Zpos mp) <= 53;
  ud_normal : Zdigits2 (Zpos mp) = 53 \/ ep = -1074;
  ud_le_one : Zpos mp <= 2 ^ (- ep)
}.

End Binary64.

(** ** Values, series and frames *)

Definition ident := string.
Definition params := list (string * string).

(** A cell of a response column: a real number, an integer (counts and
    ranks), an identifier, or a missing value. *)
Inductive value : Type :=
| VNum (x : R)
| VInt (n : Z)
| VStr (s : string)
| VNA.

Definition as_real (v : value) : option R :=
  match v with
  | VNum x => Some x
  | VInt n => Some (IZR n)
  | _ => None
  end.

Definition is_available (v : value) : bool :=
  match v with VNA => false | _ => true end.

Definition vadd (a b : value) : value :=
  match as_real a, as_real b with
  | Some x, Some y => VNum (x + y)
  | _, _ => VNA
  end.

(** A quotient with a zero divisor is missing. *)
Definition vdiv (a b : value) : value :=
  match as_real a, as_real b with
  | Some x, Some y => if Req_dec_T y 0 then VNA else VNum (x / y)
  | _, _ => VNA
  end.

(** [v <= t] for an integer bound; a missing value satisfies nothing. *)
Definition vle (v : value) (t : Z) : bool :=
  match v with
  | VInt n => (n <=? t)%Z
  | VNum x => if Rle_dec x (IZR t) then true else false
  | _ => false
  end.

(** A pandas Series indexed by identifier, and a DataFrame. *)
Definition Series := list (ident * value).

Record DataFrame : Type := {
  columns : list string;
  rows : list (ident * list value)
}.

Definition lookup (i : ident) (s : Series) : value :=
  match find (fun kv => String.eqb (fst kv) i) s with
  | Some kv => snd kv
  | None => VNA
  end.

(** The union of index labels, each kept at its first occurrence. *)
Fixpoint union_index (seen : list ident) (labels : list ident) : list ident :=
  match labels with
  | [] => seen
  | i :: rest =>
      if existsb (String.eqb i) seen then union_index seen rest
      else union_index (seen ++ [i])%list rest
  end.

(** Equality of two indexes, label by label and in order. *)
Fixpoint index_eqb (a b : list ident) : bool :=
  match a, b with
  | [], [] => true
  | x :: a', y :: b' => String.eqb x y && index_eqb a' b'
  | _, _ => false
  end.

Fixpoint has_duplicates (labels : list ident) : bool :=
  match labels with
  | [] => false
  | i :: rest => existsb (String.eqb i) rest || has_duplicates rest
  end.

(** The rows of columns that share one index, position by position. *)
Fixpoint zip_rows (index : list ident) (cols : list (list value))
  : list (ident * list value) :=
  match index with
  | [] => []
  | i :: index' => (i, map (hd VNA) cols) :: zip_rows index' (map (@tl value) cols)
  end.

(** [pd.concat(series, axis=1)], one column per series.  No series at all
    is a [ValueError].  Series that all carry the same index are laid side
    by side, position by position, repeated labels included.  Otherwise
    the series are joined on the union of their labels, a label a series
    lacks giving a missing cell; this reindexing raises when a series
    repeats a label. *)
Definition pd_concat_axis1 (ss : list (string * Series)) : option DataFrame :=
  match ss with
  | [] => None
  | s0 :: rest =>
      let index0 := map fst (snd s0) in
      if forallb (fun s => index_eqb (map fst (snd s)) index0) rest then
        Some {| columns := map fst ss;
                rows := zip_rows index0 (map (fun s => map snd (snd s)) ss) |}
      else if existsb (fun s => has_duplicates (map fst (snd s))) ss then None
      else
        let index := union_index [] (flat_map (fun s => map fst (snd s)) ss) in
        Some {| columns := map fst ss;
                rows := map (fun i => (i, map (fun s => lookup i (snd s)) ss)) index |}
  end.

(** ** Query objects *)

(** A data item, as built by [bq.data.<field>(...)], the arithmetic
    operators and the methods chained on items. *)
Inductive item : Type :=
| IData (field : string) (ps : params)
| IId
| IConst (c : Z)
| IAdd (a b : item)
| IDiv (a b : item)
| IGroup (a : item)
| IUngroup (a : item)
| IZnav (a : item)
| IRank (a : item)
| ICount (a : item)
| IApplyPreferences (a : item) (prefs : params).

(** A criterion: [item <= bound] and [bq.func.and_]. *)
Inductive pred : Type :=
| PLe (a : item) (bound : Z)
| PAnd (p q : pred).

(** A universe: [bq.univ.members] and [bq.univ.filter]. *)
Inductive univ : Type :=
| Members (index : string)
| Filter (u : univ) (c : pred).

(** [bql.Request(universe, items, with_params=...)]. *)
Record Request : Type := {
  req_univ : univ;
  req_items : list (string * item);
  req_params : params
}.

(** One entry of the response of [bq.execute]; [df] is the column
    [sir.df()[sir.name]]. *)
Record SingleItemResponse : Type := {
  name : string;
  df : Series
}.

(** ** The data service *)

(** The snapshot the service answers from. *)
Record DataService : Type := {
  members : string -> list ident;
  field : string -> params -> ident -> value
}.

(** The group functions of the service.  The source only names them. *)
Class Backend : Type := {
  znav : list value -> option (list value);
  rank : list value -> option (list value)
}.

Definition obind {A B : Type} (o : option A) (f : A -> option B) : option B :=
  match o with
  | Some a => f a
  | None => None
  end.

Declare Scope opt_scope.
Delimit Scope opt_scope with opt.
Notation "x <- o ;; k" := (obind o (fun x => k))
  (at level 61, o at next level, right associativity) : opt_scope.

Fixpoint map2 {A B C : Type} (f : A -> B -> C) (xs : list A) (ys : list B) : list C :=
  match xs, ys with
  | x :: xs', y :: ys' => f x y :: map2 f xs' ys'
  | _, _ => []
  end.

Fixpoint mapM {A B : Type} (f : A -> option B) (xs : list A) : option (list B) :=
  match xs with
  | [] => Some []
  | x :: xs' =>
      obind (f x) (fun y => obind (mapM f xs') (fun ys => Some (y :: ys)))
  end.

Definition count_available (col : list value) : Z :=
  Z.of_nat (List.length (filter is_available col)).

(** Keep the identifiers whose mask entry is true. *)
Definition select (U : list ident) (mask : list bool) : list ident :=
  map fst (filter snd (combine U mask)).

Section Semantics.
Context {B : Backend}.
Variable D : DataService.

(** The column of an item over the universe [U], aligned with [U]; an
    aggregate has a single row. *)
Fixpoint eval (U : list ident) (it : item) : option (list value) :=
  match it with
  | IData f ps => Some (map (field D f ps) U)
  | IId => Some (map VStr U)
  | IConst c => Some (map (fun _ => VInt c) U)
  | IAdd a b =>
      (x <- eval U a ;; y <- eval U b ;; Some (map2 vadd x y))%opt
  | IDiv a b =>
      (x <- eval U a ;; y <- eval U b ;; Some (map2 vdiv x y))%opt
  | IGroup a => eval U a
  | IUngroup a => eval U a
  | IZnav a => (x <- eval U a ;; znav x)%opt
  | IRank a => (x <- eval U a ;; rank x)%opt
  | ICount a => (x <- eval U a ;; Some [VInt (count_available x)])%opt
  | IApplyPreferences a _ => eval U a
  end.

Fixpoint holds (U : list ident) (c : pred) : option (list bool) :=
  match c with
  | PLe a t => (x <- eval U a ;; Some (map (fun v => vle v t) x))%opt
  | PAnd p q =>
      (x <- holds U p ;; y <- holds U q ;; Some (map2 andb x y))%opt
  end.

Fixpoint eval_univ (u : univ) : option (list ident) :=
  match u with
  | Members index => Some (members D index)
  | Filter u' c =>
      (U <- eval_univ u' ;; mask <- holds U c ;; Some (select U mask))%opt
  end.

(** [bq.execute(request)]: one response per item, in the order of the
    request's items, each a column over the members of the universe. *)
Definition exec (rq : Request) : option (list SingleItemResponse) :=
  (U <- eval_univ (req_univ rq) ;;
   mapM (fun ni =>
           col <- eval U (snd ni) ;;
           Some {| name := fst ni; df := combine U col |})
        (req_items rq))%opt.

End Semantics.

(** ** The monad of the script

    A run may raise ([None]) and logs, in order, the requests it submits
    with [bq.execute]; the log is kept when the run raises. *)

Definition Run (A : Type) : Type := list Request -> option A * list Request.

Definition ret {A : Type} (a : A) : Run A := fun log => (Some a, log).

Definition bind {A B : Type} (m : Run A) (f : A -> Run B) : Run B :=
  fun log =>
    match m log with
    | (Some a, log') => f a log'
    | (None, log') => (None, log')
    end.

(** A pure step that may raise. *)
Definition lift {A : Type} (o : option A) : Run A := fun log => (o, log).

Definition execute {B : Backend} (D : DataService) (rq : Request)
  : Run (list SingleItemResponse) :=
  fun log => (exec D rq, (log ++ [rq])%list).

Declare Scope run_scope.
Delimit Scope run_scope with run.
Notation "x <- m ;; k" := (bind m (fun x => k))
  (at level 61, m at next level, right associativity) : run_scope.

(** ** The script, line by line *)

(** [bq.univ.members('UKX Index')] *)
Definition bq_univ : univ := Members "UKX Index".

Definition bq_px_to_book : item :=
  IDiv (IData "px_last" [("fill", "PREV"); ("currency", "GBP")])
       (IData "book_val_per_sh" [("fa_period_type", "LTM"); ("currency", "GBP")]).

Definition bq_avg_roe_2y : item :=
  IDiv (IAdd (IData "return_com_eqy" [("fa_period_offset", "-1")])
             (IData "return_com_eqy" [("fa_period_offset", "-2")]))
       (IConst 2).

Definition cash_from_oper : item := IData "cf_cash_from_oper" [("fa_period_type", "LTM")].
Definition tot_asset : item := IData "bs_tot_asset" [("fa_period_type", "LTM")].

Definition bq_cash_per_asset : item := IDiv cash_from_oper tot_asset.

(** [bq.data.id().group().count()] *)
Definition id_count : item := ICount (IGroup IId).

Definition count_request : Request :=
  {| req_univ := bq_univ; req_items := [("COUNT", id_count)]; req_params := [] |}.

(** [sir.df()[label]]: a [KeyError] unless the label is the item's. *)
Definition column (sir : SingleItemResponse) (label : string) : option Series :=
  if String.eqb label (name sir) then Some (df sir) else None.

Definition threshold_percentage : Binary64.float := Binary64.lit_0_80.

(** The double the product reads in a cell: an integer cell is converted,
    a real cell that is a whole number is the double of that number, a
    missing cell is NaN; a string cell is a [TypeError]. *)
Definition float_of_value (v : value) : option Binary64.float :=
  match v with
  | VInt n => Some (Binary64.of_int n)
  | VNum x =>
      if Req_dec_T x (IZR (Int_part x)) then Some (Binary64.of_int (Int_part x))
      else None
  | VNA => Some S754_nan
  | VStr _ => None
  end.

(** [p * series]: the product with every entry, as floats. *)
Definition series_times (p : Binary64.float) (s : Series)
  : option (list (ident * Binary64.float)) :=
  mapM (fun kv =>
          match float_of_value (snd kv) with
          | Some x => Some (fst kv, Binary64.mul p x)
          | None => None
          end) s.

(** [int(series)]: defined on a series of exactly one entry. *)
Definition int_of_series (s : list (ident * Binary64.float)) : option Z :=
  match s with
  | [(_, x)] => Binary64.to_int x
  | _ => None
  end.

(** [int(p * num_of_members)] on the count a response carries ... *)
Definition threshold_rank_of (p : Binary64.float) (num_of_members : Series) : option Z :=
  obind (series_times p num_of_members) int_of_series.

(** ... and on the count itself. *)
Definition threshold_rank_at (p : Binary64.float) (n : Z) : option Z :=
  Binary64.to_int (Binary64.mul p (Binary64.of_int n)).

Definition threshold_rank (n : Z) : option Z :=
  threshold_rank_at threshold_percentage n.

Definition rank_func (factor : item) : item :=
  IApplyPreferences (IUngroup (IRank (IZnav (IGroup factor))))
                    [("Currencycheck", "ignore")].

Definition factor_ranks : list item :=
  [rank_func bq_avg_roe_2y; rank_func bq_px_to_book; rank_func bq_cash_per_asset].

(** [[factor_rank <= threshold_rank for factor_rank in factor_ranks]] *)
Definition criteria (factor_ranks : list item) (threshold_rank : Z) : list pred :=
  map (fun factor_rank => PLe factor_rank threshold_rank) factor_ranks.

(** [criteria[0]], then [and_] with each further criterion in turn. *)
Definition criteria_final (criteria : list pred) : option pred :=
  match criteria with
  | [] => None
  | c0 :: rest => Some (fold_left PAnd rest c0)
  end.

Definition filtered_univ (factor_ranks : list item) (threshold_rank : Z) : option univ :=
  option_map (Filter bq_univ) (criteria_final (criteria factor_ranks threshold_rank)).

(** [d[key] = v] on an [OrderedDict]: a new key goes last, a known key
    keeps its place. *)
Fixpoint od_set (d : list (string * item)) (key : string) (v : item)
  : list (string * item) :=
  match d with
  | [] => [(key, v)]
  | (k, w) :: d' => if String.eqb k key then (k, v) :: d' else (k, w) :: od_set d' key v
  end.

Definition items_ordered_dict : list (string * item) :=
  od_set (od_set (od_set [] "AVE_ROE_2Y" bq_avg_roe_2y)
                 "PX_BOOK_VALUE" bq_px_to_book)
         "CASH_PER_ASSET" bq_cash_per_asset.

Definition bq_request (filtered : univ) : Request :=
  {| req_univ := filtered; req_items := items_ordered_dict;
     req_params := [("mode", "cached")] |}.

(** [pd.concat([sir.df()[sir.name] for sir in bq_res], axis=1)] *)
Definition result_frame (bq_res : list SingleItemResponse) : option DataFrame :=
  pd_concat_axis1 (map (fun sir => (name sir, df sir)) bq_res).

(** The whole run, for a threshold percentage [p]. *)
Definition screening {B : Backend} (D : DataService) (p : Binary64.float)
  : Run DataFrame :=
  (bq_res <- execute D count_request ;;
   sir0 <- lift (nth_error bq_res 0) ;;
   num_of_members <- lift (column sir0 "COUNT") ;;
   threshold_rank <- lift (threshold_rank_of p num_of_members) ;;
   filtered <- lift (filtered_univ factor_ranks threshold_rank) ;;
   bq_res <- execute D (bq_request filtered) ;;
   lift (result_frame bq_res))%run.

Definition bq_result_df {B : Backend} (D : DataService) : Run DataFrame :=
  screening D threshold_percentage.

(** The largest universe for which [int(0.80 * n)] is exact. *)
Definition max_members : Z := 2 ^ 50.

(** ** The rank function of the design document *)

Module SpecRank.

Local Open Scope R_scope.

(** The non-missing numbers of a column. *)
Definition available (col : list value) : list R :=
  flat_map (fun v => match as_real v with Some x => [x] | None => [] end) col.

Definition rsum (xs : list R) : R := fold_right Rplus 0 xs.

(** Division that raises on a zero divisor. *)
Definition checked_div (x y : R) : option R :=
  if Req_dec_T y 0 then None else Some (x / y).

Definition mean (xs : list R) : option R :=
  checked_div (rsum xs) (INR (List.length xs)).

Definition stdev (xs : list R) : option R :=
  (mu <- mean xs ;;
   var <- checked_div (rsum (map (fun x => (x - mu) * (x - mu)) xs))
                      (INR (List.length xs)) ;;
   Some (sqrt var))%opt.

(** The standardized value of [x]; with zero deviation the values are
    left tied at their centre and nothing is divided. *)
Definition standardized (mu sd x : R) : option R :=
  if Req_dec_T sd 0 then Some (x - mu) else checked_div (x - mu) sd.

(** Modelled from the spec: the service's [znav], which the source only
    calls.  "Standardize values (subtract mean, divide by standard
    deviation, ignoring or flagging missing values per policy)"; "empty
    universe => undefined/fails; all-identical values => standardization
    is degenerate (zero variance) and must fall back to a defined tie
    policy rather than dividing by zero".  Missing values are ignored by
    the statistics and stay missing. *)
Definition znav_spec (col : list value) : option (list value) :=
  let xs := available col in
  (mu <- mean xs ;;
   sd <- stdev xs ;;
   mapM (fun v =>
           match as_real v with
           | Some x => option_map VNum (standardized mu sd x)
           | None => Some VNA
           end) col)%opt.

Definition Rltb (x y : R) : bool := if Rlt_dec x y then true else false.

(** The dense rank of [x] among [xs]: one more than the number of
    distinct values below it. *)
Definition dense_rank (xs : list R) (x : R) : Z :=
  (1 + Z.of_nat (List.length (nodup Req_dec_T (filter (fun y => Rltb y x) xs))))%Z.

(** Modelled from the spec: the service's [rank], which the source only
    calls.  "Assign dense ranks by ascending standardized value", "rank 1
    = lowest"; a missing value has no rank. *)
Definition rank_spec (col : list value) : option (list value) :=
  let xs := available col in
  Some (map (fun v =>
               match as_real v with
               | Some x => VInt (dense_rank xs x)
               | None => VNA
               end) col).

Definition backend : Backend := {| znav := znav_spec; rank := rank_spec |}.

End SpecRank.

(** ** The factor formulas of the design document *)

Module Formula.

Definition last_price (D : DataService) : ident -> value :=
  field D "px_last" [("fill", "PREV"); ("currency", "GBP")].

Definition book_value_per_share (D : DataService) : ident -> value :=
  field D "book_val_per_sh" [("fa_period_type", "LTM"); ("currency", "GBP")].

(** Return on equity at a fiscal-year offset, written as the source
    writes it: ["-1"], ["-2"]. *)
Definition roe (D : DataService) (offset : string) : ident -> value :=
  field D "return_com_eqy" [("fa_period_offset", offset)].

Definition operating_cash_flow (D : DataService) : ident -> value :=
  field D "cf_cash_from_oper" [("fa_period_type", "LTM")].

Definition total_assets (D : DataService) : ident -> value :=
  field D "bs_tot_asset" [("fa_period_type", "LTM")].

(** Price-to-book = last price / book value per share. *)
Definition price_to_book (D : DataService) (id : ident) : value :=
  vdiv (last_price D id) (book_value_per_share D id).

(** 2-year average ROE = (ROE at offset -1 + ROE at offset -2) / 2. *)
Definition avg_roe_2y (D : DataService) (id : ident) : value :=
  vdiv (vadd (roe D "-1" id) (roe D "-2" id)) (VInt 2).

(** Cash-per-asset = operating cash flow / total assets. *)
Definition cash_per_asset (D : DataService) (id : ident) : value :=
  vdiv (operating_cash_flow D id) (total_assets D id).

End Formula.

(** The identifiers of [U] that pass [rank <= t] on each rank vector. *)
Definition passes (rs : list (ident -> value)) (t : Z) (id : ident) : bool :=
  forallb (fun r => vle (r id) t) rs.

(** The table the design document asks for: one row per identifier, the
    three factor values in the order average ROE, price-to-book,
    cash-per-asset. *)
Definition factor_table (D : DataService) (ids : list ident) : DataFrame :=
  {| columns := ["AVE_ROE_2Y"; "PX_BOOK_VALUE"; "CASH_PER_ASSET"];
     rows := map (fun id => (id, [Formula.avg_roe_2y D id;
                                   Formula.price_to_book D id;
                                   Formula.cash_per_asset D id])) ids |}.

(** Two snapshots with the same index members and the same field values
    on them. *)
Definition same_input (D1 D2 : DataService) : Prop :=
  members D1 "UKX Index" = members D2 "UKX Index" /\
  forall f ps id, In id (members D1 "UKX Index") -> field D1 f ps id = field D2 f ps id.

(** [lo, lo+1, ..., lo+n-1] *)
Definition zrange (lo : Z) (n : nat) : list Z :=
  map (fun k => lo + Z.of_nat k) (seq 0 n).

(** ** A small index for the examples *)

Module Example.

Definition universe : list ident := ["A"; "B"; "C"; "D"; "E"].

Definition position (id : ident) : Z :=
  if String.eqb id "A" then 1
  else if String.eqb id "B" then 2
  else if String.eqb id "C" then 3
  else if String.eqb id "D" then 4
  else 5.

(** Five members; three integer fields ["rank1"], ["rank2"], ["rank3"]
    (ascending, descending and constant), a field ["flat"] that is 3 for
    every member, every other field the member's position as a real
    number. *)
Definition demo : DataService :=
  {| members := fun index => if String.eqb index "UKX Index" then universe else [];
     field := fun f _ id =>
       if String.eqb f "rank1" then VInt (position id)
       else if String.eqb f "rank2" then VInt (6 - position id)
       else if String.eqb f "rank3" then VInt 3
       else if String.eqb f "flat" then VNum 3
       else VNum (IZR (position id)) |}.

(** A service that leaves values as they are and ranks by position. *)
Definition by_position : Backend :=
  {| znav := fun col => Some col;
     rank := fun col => Some (map VInt (zrange 1 (List.length col))) |}.

End Example.

(** * Properties *)

(** ** Python float arithmetic

    [int(p * float(n))] computed on the bits, and related to exact
    integer arithmetic. *)

Module Binary64Facts.

Import Binary64.
Local Open Scope Z_scope.

Lemma digits2_size (p : positive) : digits2_pos p = Pos.size p.
Proof. induction p; simpl; congruence. Qed.

Lemma Zdigits2_log2 (P : Z) : 0 < P -> Zdigits2 P = Z.log2 P + 1.
Proof.
  destruct P as [|p|p]; try lia. intros _.
  destruct p; simpl; rewrite ?digits2_size; lia.
Qed.

Lemma Zdigits2_bounds (P : Z) :
  0 < P -> 2 ^ (Zdigits2 P - 1) <= P < 2 ^ Zdigits2 P.
Proof.
  intro H. rewrite Zdigits2_log2 by assumption.
  replace (Z.log2 P + 1 - 1) with (Z.log2 P) by lia.
  apply Z.log2_spec. assumption.
Qed.

Lemma Zdigits2_unique (P d : Z) :
  0 < P -> 2 ^ (d - 1) <= P < 2 ^ d -> Zdigits2 P = d.
Proof.
  intros HP [Hl Hu]. rewrite Zdigits2_log2 by assumption.
  assert (Z.log2 P < d) by (apply Z.log2_lt_pow2; assumption).
  assert (d - 1 <= Z.log2 P) by (apply Z.log2_le_pow2; assumption).
  lia.
Qed.

Lemma iter_pos_nat {A : Type} (f : A -> A) (p : positive) (x : A) :
  iter_pos f p x = Nat.iter (Pos.to_nat p) f x.
Proof.
  revert x. induction p as [p IH|p IH|]; intro x; cbn [iter_pos].
  - rewrite !IH, Pos2Nat.inj_xI.
    replace (S (2 * Pos.to_nat p))%nat with (Pos.to_nat p + S (Pos.to_nat p))%nat by lia.
    rewrite Nat.iter_add, Nat.iter_succ_r. reflexivity.
  - rewrite !IH, Pos2Nat.inj_xO.
    replace (2 * Pos.to_nat p)%nat with (Pos.to_nat p + Pos.to_nat p)%nat by lia.
    rewrite Nat.iter_add. reflexivity.
  - reflexivity.
Qed.

Lemma shr_1_spec (st : shr_record) :
  0 <= shr_m st ->
  shr_1 st = {| shr_m := shr_m st / 2; shr_r := Z.odd (shr_m st);
                shr_s := shr_r st || shr_s st |}.
Proof.
  destruct st as [m r s]; simpl. intro Hm.
  rewrite <- Z.div2_div.
  destruct m as [|[p|p|]|p]; try lia; reflexivity.
Qed.

(** [n] right shifts of [m]: the quotient, and where the remainder lies
    with respect to half of the divisor. *)
Lemma shr_iter (m : Z) (n : nat) :
  0 <= m ->
  let st := Nat.iter n shr_1 {| shr_m := m; shr_r := false; shr_s := false |} in
  shr_m st = m / 2 ^ Z.of_nat n /\
  exists t, 0 <= t /\ 2 * t < 2 ^ Z.of_nat n /\
            m mod 2 ^ Z.of_nat n = (if shr_r st then 2 ^ Z.of_nat n / 2 else 0) + t /\
            shr_s st = (0 <? t) /\
            (shr_r st = true -> (1 <= n)%nat).
Proof.
  intro Hm. induction n as [|n IH].
  - simpl. split; [now rewrite Z.div_1_r|].
    exists 0. rewrite Z.mod_1_r. repeat split; try lia; try discriminate.
  - cbn zeta in IH |- *. 
    rewrite Nat.iter_succ.
    set (st := Nat.iter n shr_1 _) in *.
    destruct IH as (Hq & t & Ht0 & Ht & Hrem & Hs & Hr).
    assert (Hpos : 0 <= shr_m st).
    { rewrite Hq. apply Z.div_pos; [lia | apply Z.pow_pos_nonneg; lia]. }
    rewrite (shr_1_spec st Hpos). simpl shr_m; simpl shr_r; simpl shr_s.
    assert (Hpow : 2 ^ Z.of_nat (S n) = 2 ^ Z.of_nat n * 2).
    { rewrite Nat2Z.inj_succ, Z.pow_succ_r by lia. lia. }
    assert (Ha : 0 < 2 ^ Z.of_nat n) by (apply Z.pow_pos_nonneg; lia).
    split.
    + rewrite Hq, Hpow, Z.div_div by lia. reflexivity.
    + exists ((if shr_r st then 2 ^ Z.of_nat n / 2 else 0) + t).
      assert (Hb : 0 <= m mod 2 ^ Z.of_nat n < 2 ^ Z.of_nat n)
        by (apply Z.mod_pos_bound; lia).
      assert (Hhalf : shr_r st = true -> 1 <= 2 ^ Z.of_nat n / 2).
      { intro E. specialize (Hr E). destruct n as [|n']; [lia|].
        rewrite Nat2Z.inj_succ, Z.pow_succ_r by lia.
        rewrite Z.mul_comm, Z.div_mul by lia.
        assert (0 < 2 ^ Z.of_nat n') by (apply Z.pow_pos_nonneg; lia). lia. }
      rewrite <- Hrem.
      repeat split.
      * lia.
      * lia.
      * rewrite Hpow, Z.rem_mul_r by lia.
        rewrite <- Hq, Zmod_odd, Z.div_mul by lia.
        destruct (Z.odd (shr_m st)); lia.
      * rewrite Hrem, Hs. destruct (shr_r st); simpl.
        -- specialize (Hhalf eq_refl). symmetry. apply Z.ltb_lt. lia.
        -- reflexivity.
      * lia.
Qed.

Lemma shr_rne (m : Z) (p : positive) :
  0 <= m ->
  let st := iter_pos shr_1 p {| shr_m := m; shr_r := false; shr_s := false |} in
  round_nearest_even (shr_m st) (loc_of_shr_record st) = rne m (Zpos p).
Proof.
  intro Hm. cbn zeta. rewrite iter_pos_nat.
  destruct (shr_iter m (Pos.to_nat p) Hm) as (Hq & t & Ht0 & Ht & Hrem & Hs & Hr).
  set (st := Nat.iter _ _ _) in *.
  rewrite positive_nat_Z in *.
  unfold rne.
  assert (Hne : (Zpos p <=? 0) = false) by (apply Z.leb_gt; lia).
  rewrite Hne. cbn zeta.
  assert (Hh2 : 2 ^ Zpos p = 2 * 2 ^ (Zpos p - 1)).
  { replace (Zpos p) with (Z.succ (Zpos p - 1)) at 1 by lia.
    rewrite Z.pow_succ_r by lia. reflexivity. }
  assert (Hhp : 0 < 2 ^ (Zpos p - 1)) by (apply Z.pow_pos_nonneg; lia).
  set (h := 2 ^ (Zpos p - 1)) in *.
  assert (Hh : 2 ^ Zpos p / 2 = h).
  { rewrite Hh2, Z.mul_comm, Z.div_mul by lia. reflexivity. }
  rewrite Hh in Hrem. rewrite Hrem, <- Hq. rewrite Hh2 in Ht.
  clearbody h. clear Hh Hh2 Hq Hr Hne.
  destruct st as [q r s]. cbn [shr_m shr_r shr_s] in *. subst s.
  unfold loc_of_shr_record, round_nearest_even.
  destruct r; destruct (Z.ltb_spec 0 t).
  - destruct (Z.ltb_spec (h + t) h); [lia|].
    destruct (Z.ltb_spec h (h + t)); [reflexivity | lia].
  - destruct (Z.ltb_spec (h + t) h); [lia|].
    destruct (Z.ltb_spec h (h + t)); [lia|]. reflexivity.
  - destruct (Z.ltb_spec (0 + t) h); [reflexivity | lia].
  - destruct (Z.ltb_spec (0 + t) h); [reflexivity | lia].
Qed.

Lemma pow2_split (s : Z) : 0 < s -> 2 ^ s = 2 * 2 ^ (s - 1) /\ 0 < 2 ^ (s - 1).
Proof.
  intro H. split.
  - replace s with (Z.succ (s - 1)) at 1 by lia. rewrite Z.pow_succ_r by lia. reflexivity.
  - apply Z.pow_pos_nonneg; lia.
Qed.

Lemma rne_cases (P s : Z) :
  0 < s ->
  (rne P s = P / 2 ^ s /\ 2 * (P mod 2 ^ s) <= 2 ^ s) \/
  (rne P s = P / 2 ^ s + 1 /\ 2 ^ s <= 2 * (P mod 2 ^ s)).
Proof.
  intro Hs. unfold rne.
  destruct (Z.leb_spec s 0); [lia|]. cbn zeta.
  destruct (pow2_split s Hs) as [E Hh]. rewrite E.
  set (h := 2 ^ (s - 1)) in *. 
  destruct (Z.ltb_spec (P mod (2 * h)) h); [left; split; [reflexivity | lia]|].
  destruct (Z.ltb_spec h (P mod (2 * h))); [right; split; [reflexivity | lia]|].
  destruct (Z.even (P / (2 * h))); [left | right]; split; try reflexivity; lia.
Qed.

Lemma rne_nonpos (P s : Z) : s <= 0 -> rne P s = P.
Proof. intro H. unfold rne. destruct (Z.leb_spec s 0); [reflexivity | lia]. Qed.

Lemma rne_lower (P s : Z) : 0 <= s -> P / 2 ^ s <= rne P s.
Proof.
  intro Hs. destruct (Z.eq_dec s 0) as [->|Hne].
  - rewrite rne_nonpos by lia. rewrite Z.pow_0_r, Z.div_1_r. lia.
  - destruct (rne_cases P s) as [[E _]|[E _]]; lia.
Qed.

Lemma rne_upper (P s : Z) : 0 <= s -> rne P s <= P / 2 ^ s + 1.
Proof.
  intro Hs. destruct (Z.eq_dec s 0) as [->|Hne].
  - rewrite rne_nonpos by lia. rewrite Z.pow_0_r, Z.div_1_r. lia.
  - destruct (rne_cases P s) as [[E _]|[E _]]; lia.
Qed.

(** The rounded quotient is within half a unit of the exact one. *)
Lemma rne_error (P s : Z) :
  0 <= s -> 2 * (rne P s * 2 ^ s) <= 2 * P + 2 ^ s.
Proof.
  intro Hs. destruct (Z.eq_dec s 0) as [->|Hne].
  - rewrite rne_nonpos by lia. rewrite Z.pow_0_r. lia.
  - assert (Hp : 0 < 2 ^ s) by (apply Z.pow_pos_nonneg; lia).
    pose proof (Z.div_mod P (2 ^ s) ltac:(lia)) as Hdm.
    pose proof (Z.mod_pos_bound P (2 ^ s) Hp) as Hb.
    destruct (rne_cases P s) as [[E H]|[E H]]; try lia; rewrite E; nia.
Qed.

Lemma rne_mono (P1 P2 s : Z) :
  0 <= s -> P1 <= P2 -> rne P1 s <= rne P2 s.
Proof.
  intros Hs HP. destruct (Z.eq_dec s 0) as [->|Hne].
  - rewrite !rne_nonpos by lia. assumption.
  - assert (Hp : 0 < 2 ^ s) by (apply Z.pow_pos_nonneg; lia).
    assert (Hq : P1 / 2 ^ s <= P2 / 2 ^ s) by (apply Z.div_le_mono; lia).
    destruct (Z.eq_dec (P1 / 2 ^ s) (P2 / 2 ^ s)) as [Eq|Nq].
    + pose proof (Z.div_mod P1 (2 ^ s) ltac:(lia)) as H1.
      pose proof (Z.div_mod P2 (2 ^ s) ltac:(lia)) as H2.
      assert (Hr : P1 mod 2 ^ s <= P2 mod 2 ^ s) by (rewrite Eq in H1; lia).
      unfold rne. destruct (Z.leb_spec s 0); [lia|]. cbn zeta.
      rewrite Eq.
      destruct (Z.ltb_spec (P1 mod 2 ^ s) (2 ^ (s - 1)));
        destruct (Z.ltb_spec (P2 mod 2 ^ s) (2 ^ (s - 1)));
        destruct (Z.ltb_spec (2 ^ (s - 1)) (P1 mod 2 ^ s));
        destruct (Z.ltb_spec (2 ^ (s - 1)) (P2 mod 2 ^ s));
        destruct (Z.even (P2 / 2 ^ s)); lia.
    + pose proof (rne_upper P1 s ltac:(lia)). pose proof (rne_lower P2 s ltac:(lia)). lia.
Qed.

Lemma rne_scale (P s k : Z) :
  0 <= P -> 0 <= s -> 0 <= k -> rne (P * 2 ^ k) (s + k) = rne P s.
Proof.
  intros HP Hs Hk.
  destruct (Z.eq_dec k 0) as [->|Hk0].
  { rewrite Z.pow_0_r, Z.mul_1_r, Z.add_0_r. reflexivity. }
  assert (Hpk : 0 < 2 ^ k) by (apply Z.pow_pos_nonneg; lia).
  destruct (Z.eq_dec s 0) as [->|Hs0].
  - rewrite (rne_nonpos P 0) by lia. simpl (0 + k).
    unfold rne. destruct (Z.leb_spec k 0); [lia|]. cbn zeta.
    rewrite Z.div_mul, Z.mod_mul by lia.
    destruct (pow2_split k ltac:(lia)) as [_ Hh].
    destruct (Z.ltb_spec 0 (2 ^ (k - 1))); [reflexivity | lia].
  - unfold rne.
    destruct (Z.leb_spec (s + k) 0); [lia|].
    destruct (Z.leb_spec s 0); [lia|]. cbn zeta.
    assert (Hps : 0 < 2 ^ s) by (apply Z.pow_pos_nonneg; lia).
    rewrite (Z.pow_add_r 2 s k) by lia.
    rewrite Z.div_mul_cancel_r, Z.mul_mod_distr_r by lia.
    replace (s + k - 1) with ((s - 1) + k) by lia.
    rewrite (Z.pow_add_r 2 (s - 1) k) by lia.
    set (h := 2 ^ (s - 1)). set (r := P mod 2 ^ s). set (a := 2 ^ k) in *.
    destruct (Z.ltb_spec r h); destruct (Z.ltb_spec (r * a) (h * a)); try nia.
    destruct (Z.ltb_spec h r); destruct (Z.ltb_spec (h * a) (r * a)); try nia; reflexivity.
Qed.

Lemma fexp_unfold (e : Z) : fexp 53 1024 e = Z.max (e - 53) (-1074).
Proof. reflexivity. Qed.

(** Rounding a positive mantissa whose exponent is not above its
    canonical exponent. *)
Lemma binary_round_aux_spec (sx : bool) (P : positive) (ex : Z) :
  let c := fexp 53 1024 (Zdigits2 (Zpos P) + ex) in
  ex <= c -> c + 1 <= 971 ->
  binary_round_aux 53 1024 sx (Zpos P) ex loc_Exact
  = pack sx (rne (Zpos P) (c - ex)) c.
Proof.
  intros c Hs Hov.
  pose proof (Zdigits2_bounds (Zpos P) ltac:(lia)) as [Hdl Hdu].
  set (d := Zdigits2 (Zpos P)) in *.
  assert (Hc : c = Z.max (d + ex - 53) (-1074)) by reflexivity.
  unfold binary_round_aux, shr_fexp. fold d. fold c.
  cbn [shr_record_of_loc].
  destruct (c - ex) as [|p|p] eqn:Es; [| |lia].
  - (* no shift *)
    assert (c = ex) by lia.
    cbn [shr shr_m loc_of_shr_record round_nearest_even].
    fold d. fold c. rewrite Es. cbn [shr shr_m].
    rewrite rne_nonpos by lia.
    assert (Hd : d <= 53) by lia.
    assert (Hlt : Zpos P < 2 ^ 53).
    { eapply Z.lt_le_trans; [exact Hdu|]. apply Z.pow_le_mono_r; lia. }
    unfold pack. destruct (Z.eqb_spec (Zpos P) (2 ^ 53)); [lia|].
    replace ex with c by lia.
    destruct (Z.leb_spec c (1024 - 53)); [reflexivity | lia].
  - (* a shift by [p] bits, then rounding *)
    cbn [shr].
    set (st := iter_pos shr_1 p _).
    pose proof (shr_rne (Zpos P) p ltac:(lia)) as Hr. cbn zeta in Hr. fold st in Hr.
    rewrite Hr.
    replace (ex + Zpos p) with c by lia.
    set (m1 := rne (Zpos P) (Zpos p)) in *.
    assert (Hm1 : 0 <= m1 <= 2 ^ 53).
    { pose proof (rne_lower (Zpos P) (Zpos p) ltac:(lia)).
      pose proof (rne_upper (Zpos P) (Zpos p) ltac:(lia)).
      assert (0 < 2 ^ Zpos p) by (apply Z.pow_pos_nonneg; lia).
      assert (0 <= Zpos P / 2 ^ Zpos p) by (apply Z.div_pos; lia).
      assert (Zpos P / 2 ^ Zpos p < 2 ^ 53).
      { apply Z.div_lt_upper_bound; [lia|].
        rewrite <- Z.pow_add_r by lia.
        eapply Z.lt_le_trans; [exact Hdu|]. apply Z.pow_le_mono_r; lia. }
      fold m1 in H, H0. lia. }
    destruct m1 as [|m'|m'] eqn:Em; [| |lia].
    + (* rounded to zero *)
      cbn [Zdigits2]. 
      assert (Hn : fexp 53 1024 (0 + c) - c <= 0) by (rewrite fexp_unfold; lia).
      destruct (fexp 53 1024 (0 + c) - c) eqn:E2; [| lia |]; reflexivity.
    + destruct (Z.eq_dec (Zpos m') (2 ^ 53)) as [E53|N53].
      * (* the carry: 2^53 becomes 2^52 with the next exponent *)
        assert (m' = 9007199254740992%positive) by (apply Pos2Z.inj; exact E53).
        subst m'.
        replace (fexp 53 1024 (Zdigits2 9007199254740992 + c) - c) with 1
          by (rewrite fexp_unfold; change (Zdigits2 9007199254740992) with 54; lia).
        cbn -[Z.leb Z.add Z.sub].
        destruct (Z.leb_spec (c + 1) (1024 - 53)); [reflexivity | lia].
      * assert (Hlt : Zpos m' < 2 ^ 53) by lia.
        assert (Hg : Zdigits2 (Zpos m') <= 53).
        { rewrite Zdigits2_log2 by lia.
          assert (Z.log2 (Zpos m') < 53) by (apply Z.log2_lt_pow2; lia). lia. }
        assert (Hn : fexp 53 1024 (Zdigits2 (Zpos m') + c) - c <= 0)
          by (rewrite fexp_unfold; lia).
        destruct (fexp 53 1024 (Zdigits2 (Zpos m') + c) - c) eqn:E2; [| lia |];
          cbn [shr shr_m]; unfold pack;
          (destruct (Z.eqb_spec (Zpos m') (2 ^ 53)); [lia|]);
          (destruct (Z.leb_spec c (1024 - 53)); [reflexivity | lia]).
Qed.

Lemma shiftl_carry (c : Z) : Z.shiftl (2 ^ 52) (c + 1) = Z.shiftl (2 ^ 53) c.
Proof.
  destruct (Z.le_gt_cases 0 c) as [H|H].
  - rewrite !Z.shiftl_mul_pow2 by lia. rewrite Z.pow_add_r by lia.
    change (2 ^ 53) with (2 ^ 52 * 2 ^ 1). ring.
  - rewrite !Z.shiftl_div_pow2 by lia.
    replace (- c) with (1 + - (c + 1)) by lia.
    rewrite Z.pow_add_r by lia.
    rewrite <- Z.div_div by (try apply Z.pow_pos_nonneg; lia).
    reflexivity.
Qed.

Lemma to_int_pack (m c : Z) :
  0 <= m -> to_int (pack false m c) = Some (Z.shiftl m c).
Proof.
  intro Hm. unfold pack.
  destruct m as [|m'|m']; [| |lia].
  - simpl. now rewrite Z.shiftl_0_l.
  - destruct (Z.eqb_spec (Zpos m') (2 ^ 53)) as [E|N]; simpl to_int.
    + rewrite E. f_equal. apply shiftl_carry.
    + reflexivity.
Qed.

Lemma iter_xO (n k : positive) : Zpos (Pos.iter xO n k) = Zpos n * 2 ^ Zpos k.
Proof.
  rewrite <- Z.shiftl_mul_pow2 by lia. simpl Z.shiftl.
  apply (Pos.iter_swap_gen _ _ Zpos xO (Z.mul 2)). reflexivity.
Qed.

Lemma Zdigits2_scale (P k : Z) :
  0 < P -> 0 <= k -> Zdigits2 (P * 2 ^ k) = Zdigits2 P + k.
Proof.
  intros HP Hk.
  assert (0 < 2 ^ k) by (apply Z.pow_pos_nonneg; lia).
  rewrite !Zdigits2_log2 by nia.
  rewrite Z.log2_mul_pow2 by lia. lia.
Qed.

Lemma Zdigits2_mono (P Q : Z) : 0 < P -> P <= Q -> Zdigits2 P <= Zdigits2 Q.
Proof.
  intros HP HQ. rewrite !Zdigits2_log2 by lia.
  pose proof (Z.log2_le_mono P Q HQ). lia.
Qed.

Lemma Zdigits2_le (P d : Z) : 0 < P -> 0 <= d -> P < 2 ^ d -> Zdigits2 P <= d.
Proof.
  intros HP Hd H. rewrite Zdigits2_log2 by lia.
  assert (Z.log2 P < d) by (apply Z.log2_lt_pow2; lia). lia.
Qed.

Lemma Zdigits2_ge (P d : Z) : 0 < P -> 2 ^ (d - 1) <= P -> d <= Zdigits2 P.
Proof.
  intros HP H. rewrite Zdigits2_log2 by lia.
  destruct (Z.le_gt_cases 0 (d - 1)).
  - assert (d - 1 <= Z.log2 P) by (apply Z.log2_le_pow2; lia). lia.
  - pose proof (Z.log2_nonneg P). lia.
Qed.

(** [float(n)] is exact below 2^53: the mantissa is [n] shifted to 53 bits. *)
Lemma of_int_pos (N : Z) :
  0 < N < 2 ^ 53 ->
  exists mN : positive,
    of_int N = S754_finite false mN (Zdigits2 N - 53) /\
    Zpos mN = N * 2 ^ (53 - Zdigits2 N).
Proof.
  intros [H0 H53].
  destruct N as [|n|n]; try lia.
  pose proof (Zdigits2_bounds (Zpos n) ltac:(lia)) as [Hl Hu].
  assert (Hd : 1 <= Zdigits2 (Zpos n) <= 53).
  { split; [apply Zdigits2_ge; simpl; lia | apply Zdigits2_le; lia]. }
  unfold of_int, prec, emax, binary_normalize, binary_round.
  change (Zpos (digits2_pos n)) with (Zdigits2 (Zpos n)).
  set (d := Zdigits2 (Zpos n)) in *.
  assert (Hf : fexp 53 1024 (d + 0) = d - 53) by (rewrite fexp_unfold; lia).
  rewrite Hf. unfold shl_align.
  destruct (d - 53 - 0) as [|k|k] eqn:Ek; [|lia|].
  - (* already 53 bits *)
    assert (Ed : d = 53) by lia.
    rewrite binary_round_aux_spec.
    + fold d. rewrite Z.add_0_r, Ed. 
      change (fexp 53 1024 53) with 0. rewrite rne_nonpos by lia.
      exists n. unfold pack. destruct (Z.eqb_spec (Zpos n) (2 ^ 53)); [lia|].
      split; [reflexivity | rewrite Z.pow_0_r; lia].
    + fold d. rewrite Ed. change (fexp 53 1024 (53 + 0)) with 0. lia.
    + fold d. rewrite Ed. change (fexp 53 1024 (53 + 0)) with 0. lia.
  - pose proof (iter_xO n k) as Hm.
    set (mz := Pos.iter xO n k) in *.
    assert (Ek' : Zpos k = 53 - d) by lia.
    assert (Hdz : Zdigits2 (Zpos mz) = 53).
    { rewrite Hm, Zdigits2_scale by lia. fold d. lia. }
    assert (Hc : fexp 53 1024 (Zdigits2 (Zpos mz) + (d - 53)) = d - 53)
      by (rewrite Hdz, fexp_unfold; lia).
    rewrite binary_round_aux_spec; rewrite Hc; try lia.
    rewrite rne_nonpos by lia.
    pose proof (Zdigits2_bounds (Zpos mz) ltac:(lia)) as [_ Hmu]. rewrite Hdz in Hmu.
    exists mz. unfold pack. destruct (Z.eqb_spec (Zpos mz) (2 ^ 53)); [lia|].
    split; [reflexivity | rewrite Hm, Ek'; reflexivity].
Qed.

Lemma cexp_scale (P ex k : Z) :
  0 < P -> 0 <= k -> cexp (P * 2 ^ k) (ex - k) = cexp P ex.
Proof.
  intros HP Hk. unfold cexp. rewrite Zdigits2_scale by lia. f_equal. lia.
Qed.

Lemma trunc_round_scale (P ex k : Z) :
  0 < P -> 0 <= k -> ex <= cexp P ex ->
  trunc_round (P * 2 ^ k) (ex - k) = trunc_round P ex.
Proof.
  intros HP Hk Hs. unfold trunc_round. rewrite cexp_scale by lia.
  replace (cexp P ex - (ex - k)) with (cexp P ex - ex + k) by lia.
  rewrite rne_scale by lia. reflexivity.
Qed.

(** The integer part of [p * float(n)] for a positive finite [p]. *)
Lemma to_int_mul (mp : positive) (ep N : Z) :
  0 < N < 2 ^ 53 ->
  ep <= cexp (Zpos mp * N) ep -> cexp (Zpos mp * N) ep <= 0 ->
  to_int (mul (S754_finite false mp ep) (of_int N))
  = Some (trunc_round (Zpos mp * N) ep).
Proof.
  intros HN Hs Hc.
  destruct (of_int_pos N HN) as (mN & EN & HmN).
  assert (HdN : 1 <= Zdigits2 N <= 53).
  { split; [apply Zdigits2_ge; simpl; lia | apply Zdigits2_le; lia]. }
  set (k := 53 - Zdigits2 N) in *.
  rewrite EN. unfold mul, prec, emax, SFmul. cbn [xorb].
  rewrite Pos2Z.inj_mul, HmN.
  replace (Zpos mp * (N * 2 ^ k)) with (Zpos mp * N * 2 ^ k) by ring.
  replace (ep + (Zdigits2 N - 53)) with (ep - k) by lia.
  assert (HP : 0 < Zpos mp * N) by lia.
  assert (Hpk : 0 < 2 ^ k) by (apply Z.pow_pos_nonneg; lia).
  destruct (Zpos mp * N * 2 ^ k) as [|P'|P'] eqn:EP; try nia.
  rewrite binary_round_aux_spec; rewrite <- EP; fold (cexp (Zpos mp * N * 2 ^ k) (ep - k));
    rewrite cexp_scale by lia; try lia.
  rewrite to_int_pack.
  - rewrite <- (trunc_round_scale (Zpos mp * N) ep k) by lia.
    unfold trunc_round. rewrite cexp_scale by lia. reflexivity.
  - replace (cexp (Zpos mp * N) ep - (ep - k)) with (cexp (Zpos mp * N) ep - ep + k) by lia.
    rewrite rne_scale by lia.
    eapply Z.le_trans; [|apply rne_lower; lia].
    apply Z.div_pos; [lia | apply Z.pow_pos_nonneg; lia].
Qed.

Lemma cexp_unfold (P ex : Z) : cexp P ex = Z.max (Zdigits2 P + ex - 53) (-1074).
Proof. reflexivity. Qed.

Lemma trunc_round_div (P ex : Z) :
  cexp P ex <= 0 ->
  trunc_round P ex = rne P (cexp P ex - ex) / 2 ^ (- cexp P ex).
Proof. intro H. unfold trunc_round. now rewrite Z.shiftl_div_pow2. Qed.

Lemma trunc_round_nonneg (P ex : Z) :
  0 <= P -> ex <= cexp P ex -> cexp P ex <= 0 -> 0 <= trunc_round P ex.
Proof.
  intros HP Hs Hc. rewrite trunc_round_div by assumption.
  apply Z.div_pos; [|apply Z.pow_pos_nonneg; lia].
  eapply Z.le_trans; [|apply rne_lower; lia].
  apply Z.div_pos; [lia | apply Z.pow_pos_nonneg; lia].
Qed.

(** An integer below the exact product is below its rounding. *)
Lemma trunc_round_lower (P ex K : Z) :
  ex <= cexp P ex -> cexp P ex <= 0 ->
  K * 2 ^ (- ex) <= P -> K <= trunc_round P ex.
Proof.
  intros Hs Hc HK. rewrite trunc_round_div by assumption.
  set (c := cexp P ex) in *.
  assert (Hpc : 0 < 2 ^ (- c)) by (apply Z.pow_pos_nonneg; lia).
  assert (Hps : 0 < 2 ^ (c - ex)) by (apply Z.pow_pos_nonneg; lia).
  apply Z.div_le_lower_bound; [lia|].
  eapply Z.le_trans; [|apply rne_lower; lia].
  apply Z.div_le_lower_bound; [lia|].
  replace (- ex) with ((c - ex) + - c) in HK by lia.
  rewrite Z.pow_add_r in HK by lia. lia.
Qed.

(** The rounding stays below the next integer when the exact product is
    more than half a unit in the last place below it. *)
Lemma trunc_round_upper (P ex K : Z) :
  ex <= cexp P ex -> cexp P ex <= 0 ->
  2 * P + 2 ^ (cexp P ex - ex) < 2 * ((K + 1) * 2 ^ (- ex)) ->
  trunc_round P ex <= K.
Proof.
  intros Hs Hc HK. rewrite trunc_round_div by assumption.
  set (c := cexp P ex) in *.
  assert (Hpc : 0 < 2 ^ (- c)) by (apply Z.pow_pos_nonneg; lia).
  assert (Hps : 0 < 2 ^ (c - ex)) by (apply Z.pow_pos_nonneg; lia).
  pose proof (rne_error P (c - ex) ltac:(lia)) as He.
  replace (- ex) with ((c - ex) + - c) in HK by lia.
  rewrite Z.pow_add_r in HK by lia.
  assert (rne P (c - ex) / 2 ^ (- c) < K + 1); [|lia].
  apply Z.div_lt_upper_bound; [lia|]. nia.
Qed.

Lemma div_le_cross (a b D1 D2 : Z) :
  0 < D1 -> 0 < D2 -> 0 <= a -> a * D2 <= b * D1 -> a / D1 <= b / D2.
Proof.
  intros H1 H2 Ha H.
  apply Z.div_le_lower_bound; [lia|].
  pose proof (Z.mul_div_le a D1 H1).
  assert (0 <= a / D1) by (apply Z.div_pos; lia).
  nia.
Qed.

Lemma cexp_mono (P1 P2 ex : Z) :
  0 < P1 -> P1 <= P2 -> cexp P1 ex <= cexp P2 ex.
Proof.
  intros H1 H2. rewrite !cexp_unfold.
  pose proof (Zdigits2_mono P1 P2 H1 H2). lia.
Qed.

(** With the exponent fixed, the integer part of the rounding grows with
    the mantissa. *)
Lemma trunc_round_mono (P1 P2 ex : Z) :
  0 < P1 -> P1 <= P2 ->
  ex <= cexp P1 ex -> cexp P2 ex <= 0 ->
  trunc_round P1 ex <= trunc_round P2 ex.
Proof.
  intros H1 H12 Hs Hc.
  pose proof (cexp_mono P1 P2 ex H1 H12) as Hcm.
  rewrite !trunc_round_div by lia.
  set (c1 := cexp P1 ex) in *. set (c2 := cexp P2 ex) in *.
  destruct (Z.eq_dec c1 c2) as [E|NE].
  - rewrite E. apply Z.div_le_mono; [apply Z.pow_pos_nonneg; lia|].
    apply rne_mono; lia.
  - (* the larger product lies in a higher binade *)
    assert (Hlt : c1 < c2) by lia.
    pose proof (Zdigits2_bounds P1 ltac:(lia)) as [_ Hu1].
    pose proof (Zdigits2_bounds P2 ltac:(lia)) as [Hl2 _].
    pose proof (cexp_unfold P1 ex) as U1. fold c1 in U1.
    pose proof (cexp_unfold P2 ex) as U2. fold c2 in U2.
    assert (Hc1 : Zdigits2 P1 + ex - 53 <= c1) by lia.
    assert (Hc2 : c2 = Zdigits2 P2 + ex - 53) by lia.
    assert (Hps1 : 0 < 2 ^ (c1 - ex)) by (apply Z.pow_pos_nonneg; lia).
    assert (Hps2 : 0 < 2 ^ (c2 - ex)) by (apply Z.pow_pos_nonneg; lia).
    assert (Hm1 : rne P1 (c1 - ex) <= 2 ^ 53).
    { pose proof (rne_upper P1 (c1 - ex) ltac:(lia)).
      assert (P1 / 2 ^ (c1 - ex) < 2 ^ 53); [|lia].
      apply Z.div_lt_upper_bound; [lia|].
      rewrite <- Z.pow_add_r by lia.
      eapply Z.lt_le_trans; [exact Hu1|]. apply Z.pow_le_mono_r; lia. }
    assert (Hm1' : 0 <= rne P1 (c1 - ex)).
    { eapply Z.le_trans; [|apply rne_lower; lia]. apply Z.div_pos; lia. }
    assert (Hm2 : 2 ^ 52 <= rne P2 (c2 - ex)).
    { eapply Z.le_trans; [|apply rne_lower; lia].
      apply Z.div_le_lower_bound; [lia|].
      rewrite <- Z.pow_add_r by lia.
      replace (c2 - ex + 52) with (Zdigits2 P2 - 1) by lia. exact Hl2. }
    apply div_le_cross; try (apply Z.pow_pos_nonneg; lia); [lia|].
    replace (- c1) with ((- c2) + (c2 - c1)) by lia.
    rewrite Z.pow_add_r by lia.
    assert (Hd : 2 <= 2 ^ (c2 - c1)).
    { change 2 with (2 ^ 1) at 1. apply Z.pow_le_mono_r; lia. }
    assert (Hpc : 0 < 2 ^ (- c2)) by (apply Z.pow_pos_nonneg; lia).
    change (2 ^ 53) with (2 * 2 ^ 52) in Hm1.
    set (a := 2 ^ (- c2)) in *. set (b := 2 ^ (c2 - c1)) in *.
    set (m1 := rne P1 (c1 - ex)) in *. set (m2 := rne P2 (c2 - ex)) in *.
    assert (m1 * a <= 2 * 2 ^ 52 * a) by nia.
    assert (2 * 2 ^ 52 * a <= m2 * (a * b)); [|lia].
    assert (2 ^ 52 * 2 <= m2 * b) by nia. nia.
Qed.

Lemma valid_finite (s : bool) (mp : positive) (ep : Z) :
  valid (S754_finite s mp ep) = true ->
  -1074 <= ep /\ Zdigits2 (Zpos mp) <= 53 /\ (Zdigits2 (Zpos mp) = 53 \/ ep = -1074).
Proof.
  unfold valid, prec, emax, valid_binary, bounded, canonical_mantissa. intro H.
  apply andb_true_iff in H. destruct H as [H _].
  apply Z.eqb_eq in H. rewrite fexp_unfold in H.
  change (Zpos (digits2_pos mp)) with (Zdigits2 (Zpos mp)) in H. lia.
Qed.

(** [<=] on two positive finite doubles: by exponent, then by mantissa. *)
Lemma leb_finite (m1 m2 : positive) (e1 e2 : Z) :
  leb (S754_finite false m1 e1) (S754_finite false m2 e2)
  = match e1 ?= e2 with
    | Lt => true
    | Eq => (Zpos m1 <=? Zpos m2)
    | Gt => false
    end.
Proof.
  unfold leb, SFleb, SFcompare.
  destruct (e1 ?= e2); reflexivity.
Qed.

Lemma percentage_cases (p : spec_float) :
  percentage p = true ->
  (exists s, p = S754_zero s) \/
  (exists mp ep, p = S754_finite false mp ep /\ unit_double mp ep).
Proof.
  unfold percentage. intro H.
  apply andb_true_iff in H. destruct H as [H H1].
  apply andb_true_iff in H. destruct H as [Hv H0].
  destruct p as [s|s| |s mp ep].
  - left. now exists s.
  - destruct s; discriminate.
  - discriminate.
  - right. destruct s; [discriminate|].
    exists mp, ep. split; [reflexivity|].
    destruct (valid_finite _ _ _ Hv) as (He & Hd & Hn).
    unfold one in H1. rewrite leb_finite in H1.
    pose proof (Zdigits2_bounds (Zpos mp) ltac:(lia)) as [_ Hu].
    assert (Hm : Zpos mp < 2 ^ 53).
    { eapply Z.lt_le_trans; [exact Hu|]. apply Z.pow_le_mono_r; lia. }
    destruct (Z.compare_spec ep (-52)) as [E|L|G]; [| |discriminate H1].
    + apply Z.leb_le in H1. subst ep. constructor; [lia | lia | lia |].
      change (2 ^ (- -52)) with 4503599627370496. exact H1.
    + constructor; [lia | lia | lia |].
      eapply Z.le_trans; [apply Z.lt_le_incl, Hm|]. apply Z.pow_le_mono_r; lia.
Qed.

(** The products of a unit double with a count below 2^53 are rounded in
    the range the lemmas above cover. *)
Lemma unit_double_regime (mp : positive) (ep N : Z) :
  unit_double mp ep -> 0 < N < 2 ^ 53 ->
  ep <= cexp (Zpos mp * N) ep /\ cexp (Zpos mp * N) ep <= 0.
Proof.
  intros [He Hd Hn Hl] HN. rewrite cexp_unfold.
  assert (Hdm : Zdigits2 (Zpos mp) <= Zdigits2 (Zpos mp * N))
    by (apply Zdigits2_mono; nia).
  assert (Hup : Zdigits2 (Zpos mp * N) <= 53 - ep).
  { apply Zdigits2_le; [nia | lia |].
    replace (53 - ep) with (- ep + 53) by lia.
    rewrite Z.pow_add_r by lia.
    assert (0 < 2 ^ (- ep)) by (apply Z.pow_pos_nonneg; lia). nia. }
  lia.
Qed.

Lemma of_int_finite (N : Z) :
  0 < N < 2 ^ 53 -> exists m e, of_int N = S754_finite false m e.
Proof.
  intro H. destruct (of_int_pos N H) as (m & E & _). eauto.
Qed.

Lemma threshold_rank_at_zero_float (s : bool) (N : Z) :
  0 <= N < 2 ^ 53 -> threshold_rank_at (S754_zero s) N = Some 0.
Proof.
  intro H. unfold threshold_rank_at.
  destruct (Z.eq_dec N 0) as [->|Hne].
  - reflexivity.
  - destruct (of_int_finite N ltac:(lia)) as (m & e & E). rewrite E. reflexivity.
Qed.

Lemma threshold_rank_at_no_members (s : bool) (mp : positive) (ep : Z) :
  threshold_rank_at (S754_finite s mp ep) 0 = Some 0.
Proof. reflexivity. Qed.

Lemma threshold_rank_at_unit (mp : positive) (ep N : Z) :
  unit_double mp ep -> 0 < N < 2 ^ 53 ->
  threshold_rank_at (S754_finite false mp ep) N
  = Some (trunc_round (Zpos mp * N) ep).
Proof.
  intros Hu HN. destruct (unit_double_regime mp ep N Hu HN) as [Hs Hc].
  apply to_int_mul; assumption.
Qed.

Lemma unit_double_one : unit_double 4503599627370496 (-52).
Proof.
  constructor; [lia | | left |].
  - change (Zdigits2 4503599627370496) with 53. lia.
  - reflexivity.
  - change (2 ^ (- -52)) with 4503599627370496. lia.
Qed.

Lemma unit_double_0_80 : unit_double 7205759403792794 (-53).
Proof.
  constructor; [lia | | left |].
  - change (Zdigits2 7205759403792794) with 53. lia.
  - reflexivity.
  - change (2 ^ (- -53)) with 9007199254740992. lia.
Qed.

(** [int(1.0 * n)] is [n]. *)
Lemma trunc_round_one (N : Z) :
  0 < N < 2 ^ 53 -> trunc_round (4503599627370496 * N) (-52) = N.
Proof.
  intro HN.
  destruct (unit_double_regime _ _ N unit_double_one HN) as [Hs Hc].
  pose proof (cexp_unfold (4503599627370496 * N) (-52)) as Uc.
  set (c := cexp (4503599627370496 * N) (-52)) in *.
  apply Z.le_antisymm.
  - apply trunc_round_upper; fold c; try lia.
    change (2 ^ (- -52)) with 4503599627370496.
    assert (2 ^ (c - -52) <= 2 ^ 52) by (apply Z.pow_le_mono_r; lia).
    change (2 ^ 52) with 4503599627370496 in H. lia.
  - apply trunc_round_lower; fold c; lia.
Qed.

(** [int(0.80 * n)] is the floor of 4n/5 for every count below 2^50. *)
Lemma trunc_round_0_80 (N : Z) :
  0 < N < 2 ^ 50 -> trunc_round (7205759403792794 * N) (-53) = 4 * N / 5.
Proof.
  intro HN.
  assert (HN' : 0 < N < 2 ^ 53) by lia.
  destruct (unit_double_regime _ _ N unit_double_0_80 HN') as [Hs Hc].
  pose proof (cexp_unfold (7205759403792794 * N) (-53)) as Uc.
  pose proof (Zdigits2_bounds (7205759403792794 * N) ltac:(lia)) as [Hl _].
  set (d := Zdigits2 (7205759403792794 * N)) in *.
  set (c := cexp (7205759403792794 * N) (-53)) in *.
  pose proof (Z.div_mod (4 * N) 5 ltac:(lia)) as Hdm.
  pose proof (Z.mod_pos_bound (4 * N) 5 ltac:(lia)) as Hmb.
  set (K := 4 * N / 5) in *.
  assert (Hc' : c = d - 106) by lia.
  apply Z.le_antisymm.
  - apply trunc_round_upper; fold c; try lia.
    change (2 ^ (- -53)) with 9007199254740992.
    replace (c - -53) with (d - 53) by lia.
    replace (d - 1) with ((d - 53) + 52) in Hl by lia.
    rewrite Z.pow_add_r in Hl by lia.
    change (2 ^ 52) with 4503599627370496 in Hl.
    change (2 ^ 50) with 1125899906842624 in HN.
    set (a := 2 ^ (d - 53)) in *. lia.
  - apply trunc_round_lower; fold c; lia.
Qed.

Lemma threshold_rank_at_one (N : Z) :
  0 <= N < 2 ^ 53 -> threshold_rank_at one N = Some N.
Proof.
  intro H. destruct (Z.eq_dec N 0) as [->|Hne]; [reflexivity|].
  unfold one. rewrite threshold_rank_at_unit by (try apply unit_double_one; lia).
  f_equal. apply trunc_round_one. lia.
Qed.

Lemma threshold_rank_at_0_80 (N : Z) :
  0 <= N < 2 ^ 50 -> threshold_rank_at lit_0_80 N = Some (4 * N / 5).
Proof.
  intro H. destruct (Z.eq_dec N 0) as [->|Hne]; [reflexivity|].
  unfold lit_0_80. rewrite threshold_rank_at_unit by (try apply unit_double_0_80; lia).
  f_equal. apply trunc_round_0_80. lia.
Qed.

(** The integer part of the product with a unit double is at most the
    count. *)
Lemma trunc_round_unit_le (mp : positive) (ep N : Z) :
  unit_double mp ep -> 0 < N < 2 ^ 53 ->
  0 <= trunc_round (Zpos mp * N) ep <= N.
Proof.
  intros Hu HN.
  destruct (unit_double_regime mp ep N Hu HN) as [Hs Hc].
  destruct (unit_double_regime _ _ N unit_double_one HN) as [Hs1 Hc1].
  destruct Hu as [He Hd Hn Hl].
  split; [apply trunc_round_nonneg; lia|].
  rewrite <- (trunc_round_one N HN) at 2.
  rewrite <- (trunc_round_scale (4503599627370496 * N) (-52) (- ep - 52)) by lia.
  replace (-52 - (- ep - 52)) with ep by lia.
  assert (E : 4503599627370496 * N * 2 ^ (- ep - 52) = 2 ^ (- ep) * N).
  { replace (- ep) with (52 + (- ep - 52)) at 2 by lia.
    rewrite Z.pow_add_r by lia. change (2 ^ 52) with 4503599627370496. ring. }
  rewrite E.
  pose proof (cexp_scale (4503599627370496 * N) (-52) (- ep - 52)
                ltac:(lia) ltac:(lia)) as Hcs.
  replace (-52 - (- ep - 52)) with ep in Hcs by lia. rewrite E in Hcs.
  apply trunc_round_mono; try assumption; nia.
Qed.

Lemma threshold_rank_at_bounds (p : spec_float) (N : Z) :
  percentage p = true -> 0 <= N < 2 ^ 53 ->
  exists T, threshold_rank_at p N = Some T /\ 0 <= T <= N.
Proof.
  intros Hp HN. destruct (percentage_cases p Hp) as [(s & ->)|(mp & ep & -> & Hu)].
  - exists 0. split; [now apply threshold_rank_at_zero_float | lia].
  - destruct (Z.eq_dec N 0) as [->|Hne].
    + exists 0. split; [reflexivity | lia].
    + rewrite threshold_rank_at_unit by (try assumption; lia).
      eexists; split; [reflexivity|]. apply trunc_round_unit_le; [assumption | lia].
Qed.

(** A larger percentage never gives a smaller threshold rank. *)
Lemma threshold_rank_at_mono (p1 p2 : spec_float) (N : Z) :
  percentage p1 = true -> percentage p2 = true -> leb p1 p2 = true ->
  0 <= N < 2 ^ 53 ->
  exists T1 T2, threshold_rank_at p1 N = Some T1 /\
                threshold_rank_at p2 N = Some T2 /\ T1 <= T2.
Proof.
  intros H1 H2 Hle HN.
  destruct (percentage_cases p1 H1) as [(s1 & ->)|(m1 & e1 & -> & U1)].
  { destruct (threshold_rank_at_bounds p2 N H2 HN) as (T2 & E2 & B2).
    exists 0, T2. split; [now apply threshold_rank_at_zero_float|]. split; [assumption | lia]. }
  destruct (percentage_cases p2 H2) as [(s2 & ->)|(m2 & e2 & -> & U2)].
  { destruct s2; discriminate Hle. }
  destruct (Z.eq_dec N 0) as [->|Hne].
  { exists 0, 0. repeat split; try reflexivity; lia. }
  assert (HN' : 0 < N < 2 ^ 53) by lia.
  exists (trunc_round (Zpos m1 * N) e1), (trunc_round (Zpos m2 * N) e2).
  split; [now apply threshold_rank_at_unit|]. split; [now apply threshold_rank_at_unit|].
  destruct (unit_double_regime m1 e1 N U1 HN') as [Hs1 Hc1].
  destruct (unit_double_regime m2 e2 N U2 HN') as [Hs2 Hc2].
  rewrite leb_finite in Hle.
  assert (Hord : e1 <= e2 /\ Zpos m1 <= Zpos m2 * 2 ^ (e2 - e1)).
  { destruct (Z.compare_spec e1 e2) as [E|L|G]; [| |discriminate Hle].
    - apply Z.leb_le in Hle. subst e2. rewrite Z.sub_diag, Z.pow_0_r. lia.
    - destruct U1 as [He1 Hd1 Hn1 _]. destruct U2 as [He2 Hd2 Hn2 _].
      assert (Hd53 : Zdigits2 (Zpos m2) = 53) by lia.
      pose proof (Zdigits2_bounds (Zpos m2) ltac:(lia)) as [Hl2 _].
      pose proof (Zdigits2_bounds (Zpos m1) ltac:(lia)) as [_ Hu1].
      rewrite Hd53 in Hl2. change (2 ^ (53 - 1)) with 4503599627370496 in Hl2.
      assert (Zpos m1 < 2 ^ 53).
      { eapply Z.lt_le_trans; [exact Hu1|]. apply Z.pow_le_mono_r; lia. }
      change (2 ^ 53) with 9007199254740992 in H.
      assert (2 <= 2 ^ (e2 - e1)).
      { change 2 with (2 ^ 1) at 1. apply Z.pow_le_mono_r; lia. }
      split; [lia | nia]. }
  destruct Hord as [He Hm].
  rewrite <- (trunc_round_scale (Zpos m2 * N) e2 (e2 - e1)) by lia.
  replace (e2 - (e2 - e1)) with e1 by lia.
  assert (Hp2 : 0 < 2 ^ (e2 - e1)) by (apply Z.pow_pos_nonneg; lia).
  pose proof (cexp_scale (Zpos m2 * N) e2 (e2 - e1) ltac:(lia) ltac:(lia)) as Hcs.
  replace (e2 - (e2 - e1)) with e1 in Hcs by lia.
  apply trunc_round_mono; try assumption; nia.
Qed.

End Binary64Facts.

(** ** Columns and masks *)

Lemma map2_map {A B C X : Type} (f : A -> B -> C) (g : X -> A) (h : X -> B) (l : list X) :
  map2 f (map g l) (map h l) = map (fun x => f (g x) (h x)) l.
Proof.
  induction l as [|x l IH]; simpl; [reflexivity|].
  now rewrite IH.
Qed.

Lemma select_map (f : ident -> bool) (U : list ident) :
  select U (map f U) = filter f U.
Proof.
  unfold select.
  induction U as [|u U IH]; simpl; [reflexivity|].
  destruct (f u); simpl; now rewrite IH.
Qed.

Lemma map2_length {A B C : Type} (f : A -> B -> C) (xs : list A) (ys : list B) :
  List.length xs = List.length ys -> List.length (map2 f xs ys) = List.length xs.
Proof.
  revert ys; induction xs as [|x xs IH]; intros [|y ys]; simpl; try discriminate; auto.
Qed.

Lemma combine_map_r {A X : Type} (g : X -> A) (l : list X) :
  combine l (map g l) = map (fun x => (x, g x)) l.
Proof.
  induction l as [|x l IH]; simpl; [reflexivity|].
  now rewrite IH.
Qed.

Section Pointwise.
Context {B : Backend}.
Variable D : DataService.

Lemma eval_px_to_book (U : list ident) :
  eval D U bq_px_to_book = Some (map (Formula.price_to_book D) U).
Proof.
  unfold bq_px_to_book; simpl.
  now rewrite map2_map.
Qed.

Lemma eval_avg_roe_2y (U : list ident) :
  eval D U bq_avg_roe_2y = Some (map (Formula.avg_roe_2y D) U).
Proof.
  unfold bq_avg_roe_2y; simpl.
  now rewrite !map2_map.
Qed.

Lemma eval_cash_per_asset (U : list ident) :
  eval D U bq_cash_per_asset = Some (map (Formula.cash_per_asset D) U).
Proof.
  unfold bq_cash_per_asset, cash_from_oper, tot_asset; simpl.
  now rewrite map2_map.
Qed.

(** A criterion list over rank vectors given as functions of the
    identifier evaluates to the pointwise conjunction. *)
Lemma holds_fold_and (U : list ident) (t : Z) (rest : list (item * (ident -> value)))
      (c0 : pred) (m0 : ident -> bool) :
  holds D U c0 = Some (map m0 U) ->
  (forall fr, In fr rest -> eval D U (fst fr) = Some (map (snd fr) U)) ->
  holds D U (fold_left PAnd (criteria (map fst rest) t) c0)
  = Some (map (fun id => m0 id && passes (map snd rest) t id) U).
Proof.
  revert c0 m0.
  induction rest as [|[f r] rest IH]; intros c0 m0 H0 Hr; simpl.
  - rewrite H0. f_equal. apply map_ext. intro id. unfold passes; simpl.
    now rewrite andb_true_r.
  - rewrite (IH (PAnd c0 (PLe f t)) (fun id => m0 id && vle (r id) t)).
    + f_equal. apply map_ext. intro id. unfold passes; simpl.
      now rewrite andb_assoc.
    + simpl. rewrite H0. simpl.
      pose proof (Hr (f, r) (or_introl eq_refl)) as E. simpl in E.
      rewrite E. simpl.
      rewrite map_map. now rewrite map2_map.
    + intros fr Hin. apply Hr. now right.
Qed.

Lemma filtered_univ_eval (U : list ident) (t : Z) (frs : list (item * (ident -> value))) :
  members D "UKX Index" = U ->
  frs <> [] ->
  (forall fr, In fr frs -> eval D U (fst fr) = Some (map (snd fr) U)) ->
  exists u, filtered_univ (map fst frs) t = Some u /\
            eval_univ D u = Some (filter (passes (map snd frs) t) U).
Proof.
  intros HU Hne Hr.
  destruct frs as [|[f r] rest]; [contradiction|].
  unfold filtered_univ; simpl.
  eexists; split; [reflexivity|].
  simpl. rewrite HU.
  rewrite (holds_fold_and U t rest (PLe f t) (fun id => vle (r id) t)).
  - simpl. rewrite select_map. reflexivity.
  - simpl. pose proof (Hr (f, r) (or_introl eq_refl)) as E. simpl in E.
    rewrite E. simpl. now rewrite map_map.
  - intros fr Hin. apply Hr. now right.
Qed.

End Pointwise.

(** ** The three factors *)

(** C6. For every identifier, the column the service computes for each of
    the three factor items is the formula of the design document:
    price-to-book is the last price divided by the book value per share,
    the 2-year average ROE is the sum of the ROE at the fiscal-year
    offsets -1 and -2 divided by 2, and cash-per-asset is the operating
    cash flow divided by the total assets; on numbers (and a non-zero
    divisor) the cells are the real quotients. *)
Theorem factor_values_match_formulas {B : Backend} (D : DataService) (U : list ident) :
  eval D U bq_px_to_book = Some (map (Formula.price_to_book D) U) /\
  eval D U bq_avg_roe_2y = Some (map (Formula.avg_roe_2y D) U) /\
  eval D U bq_cash_per_asset = Some (map (Formula.cash_per_asset D) U) /\
  (forall id px bv,
      Formula.last_price D id = VNum px ->
      Formula.book_value_per_share D id = VNum bv -> bv <> 0%R ->
      Formula.price_to_book D id = VNum (px / bv)) /\
  (forall id r1 r2,
      Formula.roe D "-1" id = VNum r1 -> Formula.roe D "-2" id = VNum r2 ->
      Formula.avg_roe_2y D id = VNum ((r1 + r2) / 2)) /\
  (forall id cf ta,
      Formula.operating_cash_flow D id = VNum cf ->
      Formula.total_assets D id = VNum ta -> ta <> 0%R ->
      Formula.cash_per_asset D id = VNum (cf / ta)).
Proof.
  repeat split.
  - apply eval_px_to_book.
  - apply eval_avg_roe_2y.
  - apply eval_cash_per_asset.
  - intros id px bv Hp Hb Hne. unfold Formula.price_to_book, vdiv.
    rewrite Hp, Hb; simpl.
    destruct (Req_dec_T bv 0); [contradiction | reflexivity].
  - intros id r1 r2 H1 H2. unfold Formula.avg_roe_2y, vdiv, vadd.
    rewrite H1, H2; simpl.
    destruct (Req_dec_T 2 0) as [E|_]; [lra | reflexivity].
  - intros id cf ta Hc Ht Hne. unfold Formula.cash_per_asset, vdiv.
    rewrite Hc, Ht; simpl.
    destruct (Req_dec_T ta 0); [contradiction | reflexivity].
Qed.

Lemma factor_values_match_formulas_witness :
  Formula.price_to_book Example.demo "B" = VNum (2 / 2) /\
  Formula.avg_roe_2y Example.demo "B" = VNum ((2 + 2) / 2) /\
  Formula.cash_per_asset Example.demo "B" = VNum (2 / 2).
Proof.
  destruct (factor_values_match_formulas (B := Example.by_position) Example.demo
              Example.universe) as (_ & _ & _ & Hpb & Hroe & Hcpa).
  split; [apply Hpb; try reflexivity; lra|].
  split; [apply Hroe; reflexivity|].
  apply Hcpa; try reflexivity; lra.
Defined.

(** ** The screening filter *)

(** C1. For every universe and every three rank vectors, an identifier is
    a member of the filtered universe if and only if it is a member of
    the universe and its rank in each of the three factors is at most the
    threshold rank; the filtered universe is the intersection of the three
    single-factor pass sets and is included in the universe. *)
Theorem filtered_universe_is_conjunction {B : Backend} (D : DataService)
        (f1 f2 f3 : item) (r1 r2 r3 : ident -> value) (t : Z) :
  let U := members D "UKX Index" in
  eval D U f1 = Some (map r1 U) ->
  eval D U f2 = Some (map r2 U) ->
  eval D U f3 = Some (map r3 U) ->
  exists u u1 u2 u3 F F1 F2 F3,
    filtered_univ [f1; f2; f3] t = Some u /\ eval_univ D u = Some F /\
    filtered_univ [f1] t = Some u1 /\ eval_univ D u1 = Some F1 /\
    filtered_univ [f2] t = Some u2 /\ eval_univ D u2 = Some F2 /\
    filtered_univ [f3] t = Some u3 /\ eval_univ D u3 = Some F3 /\
    F = filter (fun id => vle (r1 id) t && vle (r2 id) t && vle (r3 id) t) U /\
    (forall id, In id F <->
                In id U /\ vle (r1 id) t = true /\ vle (r2 id) t = true /\
                vle (r3 id) t = true) /\
    (forall id, In id F <-> In id F1 /\ In id F2 /\ In id F3) /\
    incl F U.
Proof.
  intros U H1 H2 H3.
  destruct (filtered_univ_eval D U t [(f1, r1); (f2, r2); (f3, r3)] eq_refl)
    as (u & Hu & HF); [discriminate | |].
  { intros fr [<-|[<-|[<-|[]]]]; assumption. }
  destruct (filtered_univ_eval D U t [(f1, r1)] eq_refl) as (u1 & Hu1 & HF1);
    [discriminate | |].
  { intros fr [<-|[]]; assumption. }
  destruct (filtered_univ_eval D U t [(f2, r2)] eq_refl) as (u2 & Hu2 & HF2);
    [discriminate | |].
  { intros fr [<-|[]]; assumption. }
  destruct (filtered_univ_eval D U t [(f3, r3)] eq_refl) as (u3 & Hu3 & HF3);
    [discriminate | |].
  { intros fr [<-|[]]; assumption. }
  simpl in Hu, Hu1, Hu2, Hu3.
  exists u, u1, u2, u3.
  do 4 eexists.
  repeat (split; [eassumption|]).
  assert (Hmem : forall id,
             In id (filter (passes [r1; r2; r3] t) U) <->
             In id U /\ vle (r1 id) t = true /\ vle (r2 id) t = true /\
             vle (r3 id) t = true).
  { intro id. rewrite filter_In. unfold passes; simpl.
    rewrite andb_true_r, !andb_true_iff. tauto. }
  split; [|split; [|split]].
  - apply filter_ext. intro id. unfold passes; simpl.
    now rewrite andb_true_r, andb_assoc.
  - exact Hmem.
  - intro id. rewrite Hmem, !filter_In. unfold passes; simpl.
    rewrite !andb_true_r. tauto.
  - intros id Hin. apply Hmem in Hin. tauto.
Qed.

Lemma filtered_universe_is_conjunction_witness :
  exists u u1 u2 u3 F F1 F2 F3,
    filtered_univ [IData "rank1" []; IData "rank2" []; IData "rank3" []] 4 = Some u /\
    eval_univ (B := Example.by_position) Example.demo u = Some F /\
    filtered_univ [IData "rank1" []] 4 = Some u1 /\
    eval_univ (B := Example.by_position) Example.demo u1 = Some F1 /\
    filtered_univ [IData "rank2" []] 4 = Some u2 /\
    eval_univ (B := Example.by_position) Example.demo u2 = Some F2 /\
    filtered_univ [IData "rank3" []] 4 = Some u3 /\
    eval_univ (B := Example.by_position) Example.demo u3 = Some F3 /\
    F = filter (fun id => vle (field Example.demo "rank1" [] id) 4
                          && vle (field Example.demo "rank2" [] id) 4
                          && vle (field Example.demo "rank3" [] id) 4)
               Example.universe /\
    (forall id, In id F <->
                In id Example.universe /\
                vle (field Example.demo "rank1" [] id) 4 = true /\
                vle (field Example.demo "rank2" [] id) 4 = true /\
                vle (field Example.demo "rank3" [] id) 4 = true) /\
    (forall id, In id F <-> In id F1 /\ In id F2 /\ In id F3) /\
    incl F Example.universe.
Proof.
  apply (filtered_universe_is_conjunction (B := Example.by_position) Example.demo
           (IData "rank1" []) (IData "rank2" []) (IData "rank3" [])
           (field Example.demo "rank1" []) (field Example.demo "rank2" [])
           (field Example.demo "rank3" []) 4); reflexivity.
Defined.

(** ** The two requests of a run *)

Lemma count_available_ids (U : list ident) :
  count_available (map VStr U) = Z.of_nat (List.length U).
Proof.
  unfold count_available. f_equal.
  induction U as [|u U IH]; simpl; [reflexivity | now rewrite IH].
Qed.

Lemma mapM_length {A B : Type} (f : A -> option B) (xs : list A) (ys : list B) :
  mapM f xs = Some ys -> List.length ys = List.length xs.
Proof.
  revert ys. induction xs as [|x xs IH]; intros ys; simpl.
  - intros [= <-]. reflexivity.
  - destruct (f x) as [y|]; [|discriminate]. simpl.
    destruct (mapM f xs) as [ys'|]; [|discriminate]. simpl.
    intros [= <-]. simpl. now rewrite (IH ys').
Qed.

Lemma items_ordered_dict_eq :
  items_ordered_dict = [("AVE_ROE_2Y", bq_avg_roe_2y);
                        ("PX_BOOK_VALUE", bq_px_to_book);
                        ("CASH_PER_ASSET", bq_cash_per_asset)].
Proof. reflexivity. Qed.

Section Requests.
Context {B : Backend}.
Variable D : DataService.

(** The count request answers with one row that carries the number of
    members; it has no row when the index is empty. *)
Lemma exec_count_request :
  exec D count_request
  = Some [{| name := "COUNT";
             df := combine (members D "UKX Index")
                           [VInt (Z.of_nat (List.length (members D "UKX Index")))] |}].
Proof.
  unfold exec, count_request; simpl.
  now rewrite count_available_ids.
Qed.

(** The screening request answers with the three factor columns over the
    members of its universe. *)
Lemma exec_bq_request (u : univ) (F : list ident) :
  eval_univ D u = Some F ->
  exec D (bq_request u)
  = Some [{| name := "AVE_ROE_2Y"; df := map (fun id => (id, Formula.avg_roe_2y D id)) F |};
          {| name := "PX_BOOK_VALUE"; df := map (fun id => (id, Formula.price_to_book D id)) F |};
          {| name := "CASH_PER_ASSET"; df := map (fun id => (id, Formula.cash_per_asset D id)) F |}].
Proof.
  intro HF. unfold exec, bq_request. cbn [req_univ req_items].
  rewrite HF, items_ordered_dict_eq. cbn [obind mapM fst snd].
  rewrite eval_avg_roe_2y, eval_px_to_book, eval_cash_per_asset.
  cbn [obind]. now rewrite !combine_map_r.
Qed.

End Requests.

(** ** Assembling the table *)

Lemma existsb_eqb_In (i : ident) (l : list ident) :
  existsb (String.eqb i) l = true <-> In i l.
Proof.
  rewrite existsb_exists. split.
  - intros (x & Hx & E). apply String.eqb_eq in E. now subst.
  - intro H. exists i. split; [assumption | apply String.eqb_refl].
Qed.

Lemma union_index_seen (seen labels : list ident) :
  incl labels seen -> union_index seen labels = seen.
Proof.
  revert seen. induction labels as [|i rest IH]; intros seen Hin; simpl; [reflexivity|].
  assert (Hi : existsb (String.eqb i) seen = true)
    by (apply existsb_eqb_In, Hin; now left).
  rewrite Hi. apply IH. intros x Hx. apply Hin. now right.
Qed.

Lemma union_index_fresh (seen labels : list ident) :
  NoDup (seen ++ labels) -> union_index seen labels = (seen ++ labels)%list.
Proof.
  revert seen. induction labels as [|i rest IH]; intros seen Hnd; simpl.
  - now rewrite app_nil_r.
  - assert (Hi : existsb (String.eqb i) seen = false).
    { apply not_true_is_false. rewrite existsb_eqb_In. intro Hin.
      apply NoDup_remove_2 in Hnd. apply Hnd. apply in_or_app. now left. }
    rewrite Hi.
    replace (seen ++ i :: rest)%list with ((seen ++ [i]) ++ rest)%list in *
      by (now rewrite <- app_assoc).
    now apply IH.
Qed.

Lemma union_index_app (l rest : list ident) :
  NoDup l -> incl rest l -> union_index [] (l ++ rest) = l.
Proof.
  intros Hnd Hin.
  assert (G : forall seen a b, union_index seen (a ++ b) = union_index (union_index seen a) b).
  { intros seen a; revert seen. induction a as [|x a IH]; intros seen b; simpl; [reflexivity|].
    destruct (existsb (String.eqb x) seen); apply IH. }
  rewrite G, (union_index_fresh [] l) by assumption. simpl.
  now apply union_index_seen.
Qed.

Lemma lookup_map (g : ident -> value) (F : list ident) (i : ident) :
  In i F -> lookup i (map (fun id => (id, g id)) F) = g i.
Proof.
  unfold lookup. induction F as [|x F IH]; intro Hin; [contradiction|].
  simpl. destruct (String.eqb_spec x i) as [->|Hne]; [reflexivity|].
  destruct Hin as [E|Hin]; [contradiction|]. now apply IH.
Qed.

Lemma index_eqb_refl (l : list ident) : index_eqb l l = true.
Proof.
  induction l as [|x l IH]; [reflexivity|].
  simpl. now rewrite String.eqb_refl.
Qed.

Lemma index_eqb_eq (a b : list ident) : index_eqb a b = true <-> a = b.
Proof.
  revert b. induction a as [|x a IH]; intros [|y b]; simpl; split; try easy.
  - intro H. apply andb_true_iff in H as [E H].
    apply String.eqb_eq in E. apply IH in H. now subst.
  - intro H. injection H as -> ->. rewrite String.eqb_refl. now apply IH.
Qed.

Lemma zip_rows_index (index : list ident) (cols : list (list value)) :
  map fst (zip_rows index cols) = index.
Proof.
  revert cols. induction index as [|i index IH]; intro cols; simpl; [reflexivity|].
  now rewrite IH.
Qed.

Lemma zip_rows_width (index : list ident) (cols : list (list value))
      (row : ident * list value) :
  In row (zip_rows index cols) -> List.length (snd row) = List.length cols.
Proof.
  revert cols. induction index as [|i index IH]; intros cols Hin; [contradiction|].
  destruct Hin as [<-|Hin].
  - simpl. now rewrite length_map.
  - apply IH in Hin. now rewrite length_map in Hin.
Qed.

Lemma zip_rows_map3 (g1 g2 g3 : ident -> value) (F : list ident) :
  zip_rows F [map g1 F; map g2 F; map g3 F]
  = map (fun id => (id, [g1 id; g2 id; g3 id])) F.
Proof.
  induction F as [|x F IH]; [reflexivity|].
  cbn [zip_rows map hd tl]. now rewrite IH.
Qed.

(** The frame of the three factor columns over [F] is the factor table
    of [F]. *)
Lemma result_frame_factor_table (D : DataService) (F : list ident) :
  result_frame
    [{| name := "AVE_ROE_2Y"; df := map (fun id => (id, Formula.avg_roe_2y D id)) F |};
     {| name := "PX_BOOK_VALUE"; df := map (fun id => (id, Formula.price_to_book D id)) F |};
     {| name := "CASH_PER_ASSET"; df := map (fun id => (id, Formula.cash_per_asset D id)) F |}]
  = Some (factor_table D F).
Proof.
  unfold result_frame, pd_concat_axis1, factor_table.
  cbn [map name df fst snd forallb].
  rewrite !map_map. cbn [fst snd]. rewrite !map_id, index_eqb_refl.
  cbn [andb]. now rewrite zip_rows_map3.
Qed.

(** ** The run of the script *)

Lemma threshold_rank_of_count (p : Binary64.float) (u0 : ident) (n : Z) :
  threshold_rank_of p [(u0, VInt n)] = threshold_rank_at p n.
Proof. reflexivity. Qed.

Section Runs.
Context {B : Backend}.
Variable D : DataService.

(** A run on an empty index raises after its first request. *)
Lemma screening_empty (p : Binary64.float) (log : list Request) :
  members D "UKX Index" = [] ->
  screening D p log = (None, (log ++ [count_request])%list).
Proof.
  intro HU. unfold screening, bind, execute.
  rewrite exec_count_request, HU. reflexivity.
Qed.

(** A run on a non-empty index computes the threshold rank of the
    number of members, and submits the screening request unless that
    raises. *)
Lemma screening_nonempty (p : Binary64.float) (log : list Request) :
  members D "UKX Index" <> [] ->
  screening D p log
  = match threshold_rank_at p (Z.of_nat (List.length (members D "UKX Index"))) with
    | None => (None, (log ++ [count_request])%list)
    | Some t =>
        match filtered_univ factor_ranks t with
        | None => (None, (log ++ [count_request])%list)
        | Some u =>
            (obind (exec D (bq_request u)) result_frame,
             (log ++ [count_request; bq_request u])%list)
        end
    end.
Proof.
  intro HU. unfold screening, bind, execute.
  rewrite exec_count_request.
  destruct (members D "UKX Index") as [|u0 U'] eqn:E; [contradiction|].
  cbn [lift nth_error column name df combine String.eqb Ascii.eqb Bool.eqb].
  rewrite combine_nil, threshold_rank_of_count.
  destruct (threshold_rank_at p _) as [t|]; [|reflexivity].
  destruct (filtered_univ factor_ranks t) as [u|]; [|reflexivity].
  unfold lift. rewrite <- app_assoc. cbn [app].
  destruct (exec D (bq_request u)); reflexivity.
Qed.

(** A run that gets through returns the factor table of the filtered
    universe and has submitted the count request and the screening
    request, in this order. *)
Lemma screening_run (p : Binary64.float) (log : list Request)
      (t : Z) (u : univ) (F : list ident) :
  members D "UKX Index" <> [] ->
  threshold_rank_at p (Z.of_nat (List.length (members D "UKX Index"))) = Some t ->
  filtered_univ factor_ranks t = Some u ->
  eval_univ D u = Some F ->
  screening D p log
  = (Some (factor_table D F), (log ++ [count_request; bq_request u])%list).
Proof.
  intros HU Ht Hu HF.
  rewrite (screening_nonempty p log HU), Ht, Hu.
  rewrite (exec_bq_request D u F HF). cbn [obind].
  now rewrite result_frame_factor_table.
Qed.

End Runs.

(** ** Thresholds and masks *)

Lemma vle_mono (v : value) (t1 t2 : Z) :
  t1 <= t2 -> vle v t1 = true -> vle v t2 = true.
Proof.
  intro Ht. destruct v as [x|n| |]; simpl; try discriminate.
  - destruct (Rle_dec x (IZR t1)) as [H1|]; [|discriminate]. intros _.
    destruct (Rle_dec x (IZR t2)) as [|H2]; [reflexivity|].
    exfalso. apply H2. apply Rle_trans with (IZR t1); [assumption | now apply IZR_le].
  - intro H. apply Z.leb_le in H. apply Z.leb_le. lia.
Qed.

Lemma passes_mono (rs : list (ident -> value)) (t1 t2 : Z) (id : ident) :
  t1 <= t2 -> passes rs t1 id = true -> passes rs t2 id = true.
Proof.
  intros Ht. unfold passes. rewrite !forallb_forall.
  intros H r Hr. eapply vle_mono; eauto.
Qed.

Lemma filter_all {A : Type} (f : A -> bool) (l : list A) :
  (forall x, In x l -> f x = true) -> filter f l = l.
Proof.
  induction l as [|x l IH]; intro H; simpl; [reflexivity|].
  rewrite (H x) by (now left). f_equal. apply IH. intros y Hy. apply H. now right.
Qed.

Lemma filter_none {A : Type} (f : A -> bool) (l : list A) :
  (forall x, In x l -> f x = false) -> filter f l = [].
Proof.
  induction l as [|x l IH]; intro H; simpl; [reflexivity|].
  rewrite (H x) by (now left). apply IH. intros y Hy. apply H. now right.
Qed.

Lemma select_length (U : list ident) (mask : list bool) :
  List.length U = List.length mask ->
  List.length (select U mask) = List.length (filter (fun b => b) mask).
Proof.
  unfold select. rewrite length_map.
  revert mask. induction U as [|u U IH]; intros [|b mask]; simpl; try discriminate; auto.
  intros [= H]. destruct b; simpl; now rewrite IH.
Qed.

Lemma select_incl (U : list ident) (mask : list bool) : incl (select U mask) U.
Proof.
  unfold select. intros x Hx. apply in_map_iff in Hx.
  destruct Hx as ([y b] & <- & Hy). apply filter_In in Hy. destruct Hy as [Hy _].
  now apply in_combine_l in Hy.
Qed.

Lemma filter_map_length {A : Type} (g : A -> bool) (l : list A) :
  List.length (filter (fun b => b) (map g l)) = List.length (filter g l).
Proof.
  induction l as [|x l IH]; simpl; [reflexivity|].
  destruct (g x); simpl; now rewrite IH.
Qed.

Lemma filter_length_perm {A : Type} (g : A -> bool) (l l' : list A) :
  Permutation l l' -> List.length (filter g l) = List.length (filter g l').
Proof.
  induction 1 as [|x l l' _ IH|x y l|l l' l'' _ IH1 _ IH2]; simpl.
  - reflexivity.
  - destruct (g x); simpl; now rewrite IH.
  - destruct (g x), (g y); reflexivity.
  - now rewrite IH1.
Qed.

Lemma zrange_succ (lo : Z) (n : nat) :
  zrange lo (S n) = (zrange lo n ++ [lo + Z.of_nat n])%list.
Proof.
  unfold zrange. rewrite seq_S, map_app. reflexivity.
Qed.

(** Among the ranks 1..n, those at most [t] are [min n (max 0 t)]. *)
Lemma count_ranks_le (n : nat) (t : Z) :
  Z.of_nat (List.length (filter (fun v => vle v t) (map VInt (zrange 1 n))))
  = Z.min (Z.of_nat n) (Z.max 0 t).
Proof.
  induction n as [|n IH].
  - simpl. lia.
  - rewrite zrange_succ, map_app, filter_app, length_app, Nat2Z.inj_add, IH.
    cbn [map filter vle].
    destruct (Z.leb_spec (1 + Z.of_nat n) t); cbn [List.length]; lia.
Qed.

Lemma floor_four_fifths (N : Z) :
  0 <= N -> 0 <= 4 * N / 5 <= N /\ N - 4 * N / 5 = (N + 4) / 5.
Proof.
  intro H.
  pose proof (Z.div_mod (4 * N) 5 ltac:(lia)).
  pose proof (Z.mod_pos_bound (4 * N) 5 ltac:(lia)).
  pose proof (Z.div_mod (N + 4) 5 ltac:(lia)).
  pose proof (Z.mod_pos_bound (N + 4) 5 ltac:(lia)).
  lia.
Qed.

Lemma threshold_rank_exact (N : Z) :
  0 <= N < max_members -> threshold_rank N = Some (4 * N / 5).
Proof.
  intro H. apply Binary64Facts.threshold_rank_at_0_80. exact H.
Qed.

(** [int(p * n)] is the floor of the exact product of the double [p] with
    [n], or one more. *)
Lemma threshold_rank_at_floor_or_next (p : Binary64.float) (N : Z) :
  Binary64.percentage p = true -> 0 <= N < 2 ^ 53 ->
  exists T, threshold_rank_at p N = Some T /\
            Binary64.floor_product p N <= T <= Binary64.floor_product p N + 1.
Proof.
  intros Hp HN.
  destruct (Binary64Facts.percentage_cases p Hp) as [(s & ->)|(mp & ep & -> & Hu)].
  { exists 0. split; [now apply Binary64Facts.threshold_rank_at_zero_float|].
    simpl. lia. }
  destruct (Z.eq_dec N 0) as [->|Hne].
  { exists 0. split; [reflexivity|]. unfold Binary64.floor_product.
    cbn [cond_Zopp]. rewrite Z.mul_0_r, Z.shiftl_0_l. lia. }
  assert (HN' : 0 < N < 2 ^ 53) by lia.
  exists (Binary64.trunc_round (Zpos mp * N) ep).
  split; [now apply Binary64Facts.threshold_rank_at_unit|].
  destruct (Binary64Facts.unit_double_regime mp ep N Hu HN') as [Hs Hc].
  pose proof (Binary64Facts.trunc_round_unit_le mp ep N Hu HN') as [_ HTN].
  destruct Hu as [He Hd Hn Hl].
  unfold Binary64.floor_product. cbn [cond_Zopp].
  rewrite Z.shiftl_div_pow2 by lia.
  set (P := Zpos mp * N) in *. set (a := 2 ^ (- ep)).
  assert (Ha : 0 < a) by (apply Z.pow_pos_nonneg; lia).
  set (K := P / a).
  assert (HK : K * a <= P < (K + 1) * a).
  { pose proof (Z.div_mod P a ltac:(lia)). pose proof (Z.mod_pos_bound P a Ha).
    fold K in H. nia. }
  assert (HP : 0 < P) by (unfold P; nia).
  assert (HK0 : 0 <= K) by (apply Z.div_pos; lia).
  split.
  - apply Binary64Facts.trunc_round_lower; try assumption. fold a. lia.
  - destruct (Z.le_gt_cases N K) as [Hle|Hgt]; [lia|].
    (* K + 1 <= N is an integer below 2^53: it is its own rounding *)
    set (P2 := (K + 1) * a).
    assert (Hc2 : Binary64.cexp P2 ep <= 0).
    { rewrite Binary64Facts.cexp_unfold.
      assert (Zdigits2 P2 <= 53 - ep); [|lia].
      apply Binary64Facts.Zdigits2_le; [unfold P2; nia | lia |].
      replace (53 - ep) with (53 + - ep) by lia.
      rewrite Z.pow_add_r by lia. fold a. unfold P2.
      apply Z.mul_lt_mono_pos_r; lia. }
    assert (Hs2 : ep <= Binary64.cexp P2 ep).
    { pose proof (Binary64Facts.cexp_mono P P2 ep HP ltac:(unfold P2; lia)). lia. }
    apply Z.le_trans with (Binary64.trunc_round P2 ep).
    + apply Binary64Facts.trunc_round_mono; try assumption. unfold P2. lia.
    + apply Binary64Facts.trunc_round_upper; try assumption. fold a.
      assert (2 ^ (Binary64.cexp P2 ep - ep) <= a)
        by (apply Z.pow_le_mono_r; lia).
      set (b := 2 ^ (Binary64.cexp P2 ep - ep)) in *.
      unfold P2. clearbody b. clear - H Ha. clearbody a. nia.
Qed.

(** ** The threshold rank *)



(** The floor fails beyond [max_members]: on 1688850021798006 members the
    floor of 0.80 x N is 1351080017438404, both for the number 0.80 and
    for the double the literal denotes, and [int(0.80 * N)] is one more.
    It fails for other percentages on small counts: with the double
    nearest to a third and three members the floor of the product is 0
    and the program computes 1. *)
Lemma threshold_rank_above_floor :
  4 * 1688850021798006 / 5 = 1351080017438404 /\
  Binary64.floor_product threshold_percentage 1688850021798006 = 1351080017438404 /\
  threshold_rank 1688850021798006 = Some 1351080017438405 /\
  threshold_rank 1688850021798006 <> Some (4 * 1688850021798006 / 5) /\
  Binary64.percentage Binary64.third = true /\
  Binary64.floor_product Binary64.third 3 = 0 /\
  threshold_rank_at Binary64.third 3 = Some 1 /\
  threshold_rank_at Binary64.third 3 <> Some (Binary64.floor_product Binary64.third 3).
Proof.
  assert (E : threshold_rank 1688850021798006 = Some 1351080017438405)
    by (vm_compute; reflexivity).
  assert (E3 : threshold_rank_at Binary64.third 3 = Some 1) by (vm_compute; reflexivity).
  split; [reflexivity|]. split; [vm_compute; reflexivity|].
  split; [exact E|]. split; [rewrite E; discriminate|].
  split; [reflexivity|]. split; [reflexivity|].
  split; [exact E3|]. rewrite E3. discriminate.
Qed.

(** C4. For a fixed universe and fixed rank vectors, and two threshold
    percentages [p1 <= p2], the threshold rank of [p1] is at most that of
    [p2], and the filtered universe obtained with [p1] is included in the
    one obtained with [p2]. *)
Theorem screening_monotone_in_percentage {B : Backend} (D : DataService)
        (f1 f2 f3 : item) (r1 r2 r3 : ident -> value) (p1 p2 : Binary64.float) :
  let U := members D "UKX Index" in
  let N := Z.of_nat (List.length U) in
  N < 2 ^ 53 ->
  Binary64.percentage p1 = true -> Binary64.percentage p2 = true ->
  Binary64.leb p1 p2 = true ->
  eval D U f1 = Some (map r1 U) ->
  eval D U f2 = Some (map r2 U) ->
  eval D U f3 = Some (map r3 U) ->
  exists T1 T2 u1 u2 F1 F2,
    threshold_rank_at p1 N = Some T1 /\ threshold_rank_at p2 N = Some T2 /\
    T1 <= T2 /\
    filtered_univ [f1; f2; f3] T1 = Some u1 /\ eval_univ D u1 = Some F1 /\
    filtered_univ [f1; f2; f3] T2 = Some u2 /\ eval_univ D u2 = Some F2 /\
    incl F1 F2.
Proof.
  intros U N HN Hp1 Hp2 Hle H1 H2 H3.
  destruct (Binary64Facts.threshold_rank_at_mono p1 p2 N Hp1 Hp2 Hle ltac:(lia))
    as (T1 & T2 & E1 & E2 & HT).
  set (rs := [(f1, r1); (f2, r2); (f3, r3)]).
  assert (Hev : forall fr, In fr rs -> eval D U (fst fr) = Some (map (snd fr) U)).
  { intros fr [<-|[<-|[<-|[]]]]; assumption. }
  destruct (filtered_univ_eval D U T1 rs eq_refl ltac:(discriminate) Hev) as (u1 & Eu1 & EF1).
  destruct (filtered_univ_eval D U T2 rs eq_refl ltac:(discriminate) Hev) as (u2 & Eu2 & EF2).
  exists T1, T2, u1, u2. do 2 eexists.
  repeat (split; [eassumption|]).
  intros id Hid. apply filter_In in Hid. apply filter_In.
  destruct Hid as [HU Hpass]. split; [assumption|].
  eapply passes_mono; eauto.
Qed.

Lemma screening_monotone_in_percentage_witness :
  Binary64.leb Binary64.lit_0_80 Binary64.one = true /\
  exists T1 T2 u1 u2 F1 F2,
    threshold_rank_at Binary64.lit_0_80 5 = Some T1 /\
    threshold_rank_at Binary64.one 5 = Some T2 /\ T1 <= T2 /\
    filtered_univ [IData "rank1" []; IData "rank2" []; IData "rank3" []] T1 = Some u1 /\
    eval_univ (B := Example.by_position) Example.demo u1 = Some F1 /\
    filtered_univ [IData "rank1" []; IData "rank2" []; IData "rank3" []] T2 = Some u2 /\
    eval_univ (B := Example.by_position) Example.demo u2 = Some F2 /\
    incl F1 F2.
Proof.
  split; [reflexivity|].
  apply (screening_monotone_in_percentage (B := Example.by_position) Example.demo
           (IData "rank1" []) (IData "rank2" []) (IData "rank3" [])
           (field Example.demo "rank1" []) (field Example.demo "rank2" [])
           (field Example.demo "rank3" [])
           Binary64.lit_0_80 Binary64.one);
    try reflexivity.
Defined.

(** ** One factor alone *)

(** C10. When the ranks of a factor are a permutation of 1..N (N >= 1),
    the criterion [rank <= threshold_rank] of that factor alone is
    satisfied by exactly [int(0.80 * N)] identifiers, so the screen
    excludes [N - int(0.80 * N)] of them, a fifth of the universe rounded
    up. *)
Theorem single_factor_screen_count {B : Backend} (D : DataService)
        (f : item) (col : list value) :
  let U := members D "UKX Index" in
  let N := Z.of_nat (List.length U) in
  1 <= N < max_members ->
  eval D U f = Some col ->
  Permutation col (map VInt (zrange 1 (List.length U))) ->
  exists T u F,
    threshold_rank N = Some T /\ T = 4 * N / 5 /\
    filtered_univ [f] T = Some u /\ eval_univ D u = Some F /\
    Z.of_nat (List.length F) = T /\
    N - Z.of_nat (List.length F) = (N + 4) / 5.
Proof.
  intros U N HN Hev Hperm.
  destruct (floor_four_fifths N ltac:(lia)) as [Hb Hex].
  exists (4 * N / 5), (Filter bq_univ (PLe f (4 * N / 5))),
    (select U (map (fun v => vle v (4 * N / 5)) col)).
  split; [apply threshold_rank_exact; lia|].
  split; [reflexivity|].
  split; [reflexivity|].
  assert (Hlen : List.length U = List.length (map (fun v => vle v (4 * N / 5)) col)).
  { rewrite length_map, (Permutation_length Hperm), length_map.
    unfold zrange. now rewrite length_map, length_seq. }
  assert (Hcount : Z.of_nat (List.length (select U (map (fun v => vle v (4 * N / 5)) col)))
                   = 4 * N / 5).
  { rewrite (select_length _ _ Hlen), filter_map_length.
    rewrite (filter_length_perm _ _ _ Hperm), count_ranks_le. fold N. lia. }
  split.
  - simpl. fold U. rewrite Hev. simpl. reflexivity.
  - split; [exact Hcount|]. rewrite Hcount. exact Hex.
Qed.

Lemma single_factor_screen_count_witness :
  exists T u F,
    threshold_rank 5 = Some T /\ T = 4 /\
    filtered_univ [IData "rank1" []] T = Some u /\
    eval_univ (B := Example.by_position) Example.demo u = Some F /\
    Z.of_nat (List.length F) = T /\
    5 - Z.of_nat (List.length F) = 1.
Proof.
  apply (single_factor_screen_count (B := Example.by_position) Example.demo
           (IData "rank1" []) (map VInt (zrange 1 5))).
  - unfold max_members. simpl. lia.
  - reflexivity.
  - apply Permutation_refl.
Defined.

(** ** The result table *)

(** C7. On a non-empty index of distinct members (smaller than
    [max_members]) whose three factor ranks evaluate, the run returns a
    table with exactly one row per identifier of the filtered universe,
    in the order of the universe; the cells of a row are the three factor
    values of its identifier (not the ranks), and the columns are
    AVE_ROE_2Y, PX_BOOK_VALUE, CASH_PER_ASSET in this order. *)
Theorem result_table_of_filtered_universe {B : Backend} (D : DataService)
        (r1 r2 r3 : ident -> value) :
  let U := members D "UKX Index" in
  let N := Z.of_nat (List.length U) in
  let F := filter (fun id => vle (r1 id) (4 * N / 5) && vle (r2 id) (4 * N / 5)
                             && vle (r3 id) (4 * N / 5)) U in
  U <> [] -> NoDup U -> N < max_members ->
  eval D U (rank_func bq_avg_roe_2y) = Some (map r1 U) ->
  eval D U (rank_func bq_px_to_book) = Some (map r2 U) ->
  eval D U (rank_func bq_cash_per_asset) = Some (map r3 U) ->
  exists table,
    fst (bq_result_df D []) = Some table /\
    columns table = ["AVE_ROE_2Y"; "PX_BOOK_VALUE"; "CASH_PER_ASSET"] /\
    map fst (rows table) = F /\
    (forall id cells, In (id, cells) (rows table) ->
                      cells = [Formula.avg_roe_2y D id; Formula.price_to_book D id;
                               Formula.cash_per_asset D id]).
Proof.
  intros U N F HU Hnd HN H1 H2 H3.
  set (rs := [(rank_func bq_avg_roe_2y, r1); (rank_func bq_px_to_book, r2);
              (rank_func bq_cash_per_asset, r3)]).
  assert (Hev : forall fr, In fr rs -> eval D U (fst fr) = Some (map (snd fr) U)).
  { intros fr [<-|[<-|[<-|[]]]]; assumption. }
  destruct (filtered_univ_eval D U (4 * N / 5) rs eq_refl ltac:(discriminate) Hev)
    as (u & Eu & EF).
  change (map fst rs) with factor_ranks in Eu.
  assert (EFF : filter (passes (map snd rs) (4 * N / 5)) U = F).
  { apply filter_ext. intro id. unfold passes; simpl.
    now rewrite andb_true_r, andb_assoc. }
  rewrite EFF in EF.
  exists (factor_table D F).
  unfold bq_result_df.
  rewrite (screening_run D threshold_percentage [] (4 * N / 5) u F HU
             (threshold_rank_exact N ltac:(lia)) Eu EF).
  split; [reflexivity|]. split; [reflexivity|]. split.
  - simpl. rewrite map_map. simpl. apply map_id.
  - simpl. intros id cells Hin. apply in_map_iff in Hin.
    destruct Hin as (x & [= <- <-] & _). reflexivity.
Qed.

Lemma result_table_of_filtered_universe_witness :
  exists table,
    fst (bq_result_df (B := Example.by_position) Example.demo []) = Some table /\
    columns table = ["AVE_ROE_2Y"; "PX_BOOK_VALUE"; "CASH_PER_ASSET"] /\
    map fst (rows table) = ["A"; "B"; "C"; "D"] /\
    (forall id cells, In (id, cells) (rows table) ->
                      cells = [Formula.avg_roe_2y Example.demo id;
                               Formula.price_to_book Example.demo id;
                               Formula.cash_per_asset Example.demo id]).
Proof.
  apply (result_table_of_filtered_universe (B := Example.by_position) Example.demo
           (fun id => VInt (Example.position id))
           (fun id => VInt (Example.position id))
           (fun id => VInt (Example.position id))).
  - discriminate.
  - repeat constructor; simpl; intuition discriminate.
  - unfold max_members. simpl. lia.
  - reflexivity.
  - reflexivity.
  - reflexivity.
Defined.

(** ** The requests of a run *)

(** C9, as the code has it.  The requests a run submits are two, in this
    order and nothing else.  The first asks for the single item COUNT over
    the members of the index.  The second asks for the three factors,
    with [mode=cached], over the index filtered by the conjunction of the
    three rank criteria at the threshold rank [T] of the member count.
    Every run that returns a table has submitted exactly these two, and so
    has every run on a non-empty index smaller than [max_members], where
    [T] is the floor of 0.80 x N; a run that raises before the second
    request has submitted the first only.  The universe of the second
    request is made of the members whose three ranks are at most [T]. *)
Theorem run_submits_count_then_screening {B : Backend} (D : DataService) :
  let U := members D "UKX Index" in
  let N := Z.of_nat (List.length U) in
  let first :=
    {| req_univ := Members "UKX Index";
       req_items := [("COUNT", ICount (IGroup IId))];
       req_params := [] |} in
  let second (T : Z) :=
    {| req_univ :=
         Filter (Members "UKX Index")
                (PAnd (PAnd (PLe (rank_func bq_avg_roe_2y) T)
                            (PLe (rank_func bq_px_to_book) T))
                      (PLe (rank_func bq_cash_per_asset) T));
       req_items := [("AVE_ROE_2Y", bq_avg_roe_2y);
                     ("PX_BOOK_VALUE", bq_px_to_book);
                     ("CASH_PER_ASSET", bq_cash_per_asset)];
       req_params := [("mode", "cached")] |} in
  ((fst (bq_result_df D []) = None /\ snd (bq_result_df D []) = [first]) \/
   exists T, threshold_rank N = Some T /\
             snd (bq_result_df D []) = [first; second T]) /\
  (fst (bq_result_df D []) <> None ->
   exists T, threshold_rank N = Some T /\
             snd (bq_result_df D []) = [first; second T]) /\
  (U <> [] -> N < max_members ->
   snd (bq_result_df D []) = [first; second (4 * N / 5)]) /\
  (forall (T : Z) (r1 r2 r3 : ident -> value),
      eval D U (rank_func bq_avg_roe_2y) = Some (map r1 U) ->
      eval D U (rank_func bq_px_to_book) = Some (map r2 U) ->
      eval D U (rank_func bq_cash_per_asset) = Some (map r3 U) ->
      eval_univ D (req_univ (second T))
      = Some (filter (fun id => vle (r1 id) T && vle (r2 id) T && vle (r3 id) T) U)).
Proof.
  intros U N first second.
  assert (EU : members D "UKX Index" = U) by reflexivity.
  assert (EN : Z.of_nat (List.length U) = N) by reflexivity.
  clearbody N. clearbody U.
  assert (Hcase : U = [] \/ U <> []) by (destruct U; [now left | right; discriminate]).
  assert (Hempty : U = [] -> bq_result_df D [] = (None, [first])).
  { intro E. unfold bq_result_df.
    rewrite (screening_empty D threshold_percentage []) by (now rewrite EU).
    reflexivity. }
  assert (Hnone : U <> [] -> threshold_rank N = None ->
                  bq_result_df D [] = (None, [first])).
  { intros HU Et. unfold bq_result_df.
    rewrite (screening_nonempty D threshold_percentage []) by (now rewrite EU).
    rewrite EU, EN. unfold threshold_rank in Et. rewrite Et. reflexivity. }
  assert (Hlog : forall t, U <> [] -> threshold_rank N = Some t ->
                           snd (bq_result_df D []) = [first; second t]).
  { intros t HU Et. unfold bq_result_df.
    rewrite (screening_nonempty D threshold_percentage []) by (now rewrite EU).
    rewrite EU, EN. unfold threshold_rank in Et. rewrite Et. reflexivity. }
  split; [|split; [|split]].
  - destruct Hcase as [E|HU]; [left; now rewrite (Hempty E)|].
    destruct (threshold_rank N) as [t|] eqn:Et.
    + right. exists t. split; [reflexivity|]. now apply Hlog.
    + left. now rewrite (Hnone HU eq_refl).
  - intro Hsome.
    destruct Hcase as [E|HU]; [exfalso; apply Hsome; now rewrite (Hempty E)|].
    destruct (threshold_rank N) as [t|] eqn:Et.
    + exists t. split; [reflexivity|]. now apply Hlog.
    + exfalso. apply Hsome. now rewrite (Hnone HU eq_refl).
  - intros HU HN. apply Hlog; [exact HU|].
    apply threshold_rank_exact. lia.
  - intros T r1 r2 r3 H1 H2 H3.
    set (rs := [(rank_func bq_avg_roe_2y, r1); (rank_func bq_px_to_book, r2);
                (rank_func bq_cash_per_asset, r3)]).
    assert (Hev : forall fr, In fr rs -> eval D U (fst fr) = Some (map (snd fr) U)).
    { intros fr [<-|[<-|[<-|[]]]]; assumption. }
    destruct (filtered_univ_eval D U T rs EU ltac:(discriminate) Hev)
      as (u & Eu & EF).
    cbn in Eu. injection Eu as <-.
    cbn [req_univ second]. fold bq_univ. rewrite EF. f_equal.
    apply filter_ext. intro id. unfold passes; simpl.
    now rewrite andb_true_r, andb_assoc.
Qed.

Lemma run_submits_count_then_screening_witness :
  snd (bq_result_df (B := Example.by_position) Example.demo [])
  = [ {| req_univ := Members "UKX Index";
         req_items := [("COUNT", ICount (IGroup IId))];
         req_params := [] |};
      {| req_univ :=
           Filter (Members "UKX Index")
                  (PAnd (PAnd (PLe (rank_func bq_avg_roe_2y) 4)
                              (PLe (rank_func bq_px_to_book) 4))
                        (PLe (rank_func bq_cash_per_asset) 4));
         req_items := [("AVE_ROE_2Y", bq_avg_roe_2y);
                       ("PX_BOOK_VALUE", bq_px_to_book);
                       ("CASH_PER_ASSET", bq_cash_per_asset)];
         req_params := [("mode", "cached")] |} ].
Proof.
  apply (proj1 (proj2 (proj2 (run_submits_count_then_screening
                                (B := Example.by_position) Example.demo)))).
  - discriminate.
  - unfold max_members. simpl. lia.
Defined.

(** The run on the example index submits two requests, not one. *)
Lemma more_than_one_request :
  List.length (snd (bq_result_df (B := Example.by_position) Example.demo [])) = 2%nat /\
  ~ (List.length (snd (bq_result_df (B := Example.by_position) Example.demo [])) <= 1)%nat.
Proof.
  assert (E : List.length (snd (bq_result_df (B := Example.by_position) Example.demo []))
              = 2%nat).
  { unfold bq_result_df.
    rewrite (screening_nonempty (B := Example.by_position) Example.demo
               threshold_percentage []) by discriminate.
    change (Z.of_nat (List.length (members Example.demo "UKX Index"))) with 5.
    pose proof (threshold_rank_exact 5 ltac:(unfold max_members; lia)) as Hx.
    unfold threshold_rank in Hx. rewrite Hx. reflexivity. }
  split; [exact E | rewrite E; lia].
Qed.

(** ** Two runs on the same input *)

Section SameInput.
Context {B : Backend}.
Variables D1 D2 : DataService.

Lemma eval_same_fields (U : list ident) (it : item) :
  (forall f ps id, In id U -> field D1 f ps id = field D2 f ps id) ->
  eval D1 U it = eval D2 U it.
Proof.
  intro H. induction it as [f ps| |c|a IHa b IHb|a IHa b IHb|a IH|a IH|a IH|a IH|a IH|a IH prefs];
    simpl; try reflexivity;
    try (rewrite IHa, IHb; reflexivity); try (rewrite IH; reflexivity); try assumption.
  apply f_equal, map_ext_in. intros id Hid. now apply H.
Qed.

Lemma holds_same_fields (U : list ident) (c : pred) :
  (forall f ps id, In id U -> field D1 f ps id = field D2 f ps id) ->
  holds D1 U c = holds D2 U c.
Proof.
  intro H. induction c as [a t|p IHp q IHq]; simpl.
  - now rewrite (eval_same_fields U a H).
  - now rewrite IHp, IHq.
Qed.

Hypothesis same : same_input D1 D2.

Lemma filter_same_input (c : pred) :
  eval_univ D1 (Filter bq_univ c) = eval_univ D2 (Filter bq_univ c).
Proof.
  destruct same as [HU Hf]. simpl. rewrite <- HU.
  now rewrite (holds_same_fields _ c Hf).
Qed.

Lemma exec_same_input (c : pred) :
  exec D1 (bq_request (Filter bq_univ c)) = exec D2 (bq_request (Filter bq_univ c)).
Proof.
  unfold exec. cbn [req_univ req_items bq_request].
  rewrite <- filter_same_input.
  destruct (eval_univ D1 (Filter bq_univ c)) as [F|] eqn:EF; [|reflexivity].
  cbn [obind].
  assert (HF : forall f ps id, In id F -> field D1 f ps id = field D2 f ps id).
  { destruct same as [HU Hf]. intros f ps id Hid. apply Hf.
    simpl in EF. destruct (holds D1 (members D1 "UKX Index") c) as [mask|]; [|discriminate].
    injection EF as <-. now apply select_incl in Hid. }
  rewrite items_ordered_dict_eq. cbn [mapM fst snd].
  now rewrite !(eval_same_fields F _ HF).
Qed.

Lemma screening_same_input (p : Binary64.float) (log : list Request) :
  screening D1 p log = screening D2 p log.
Proof.
  destruct same as [HU Hf].
  destruct (members D1 "UKX Index") as [|u0 U'] eqn:EU.
  - rewrite (screening_empty D1 p log EU).
    rewrite (screening_empty D2 p log) by (now rewrite <- HU). reflexivity.
  - rewrite (screening_nonempty D1 p log) by (rewrite EU; discriminate).
    rewrite (screening_nonempty D2 p log) by (rewrite <- HU; discriminate).
    rewrite <- HU, EU.
    destruct (threshold_rank_at p _) as [t|]; [|reflexivity].
    unfold filtered_univ.
    destruct (criteria_final (criteria factor_ranks t)) as [c|]; [|reflexivity].
    cbn [option_map]. now rewrite exec_same_input.
Qed.

End SameInput.



(** ** The rank function of the design document *)

Module SpecRankFacts.

Import SpecRank.
Local Open Scope R_scope.

Lemma available_nums (xs : list R) : available (map VNum xs) = xs.
Proof.
  unfold available. induction xs as [|x xs IH]; simpl; [reflexivity | now rewrite IH].
Qed.

Lemma checked_div_nonzero (x y : R) : y <> 0 -> checked_div x y = Some (x / y).
Proof.
  intro H. unfold checked_div. destruct (Req_dec_T y 0); [contradiction | reflexivity].
Qed.

Lemma mean_nonempty (xs : list R) :
  xs <> [] -> mean xs = Some (rsum xs / INR (List.length xs)).
Proof.
  intro H. unfold mean. apply checked_div_nonzero. apply not_0_INR.
  destruct xs; [contradiction | discriminate].
Qed.

Lemma stdev_nonempty (xs : list R) :
  xs <> [] -> exists sd, stdev xs = Some sd /\ 0 <= sd.
Proof.
  intro H. unfold stdev. rewrite (mean_nonempty xs H). cbn [obind].
  rewrite checked_div_nonzero.
  - eexists; split; [reflexivity | apply sqrt_pos].
  - apply not_0_INR. destruct xs; [contradiction | discriminate].
Qed.

(** Standardizing is an increasing affine map, also when the deviation
    is zero. *)
Lemma standardized_affine (mu sd : R) :
  0 <= sd -> exists c, 0 < c /\ forall x, standardized mu sd x = Some ((x - mu) * c).
Proof.
  intro Hsd. unfold standardized.
  destruct (Req_dec_T sd 0) as [E|N].
  - exists 1. split; [lra|]. intro x. f_equal. lra.
  - exists (/ sd). split; [apply Rinv_0_lt_compat; lra|].
    intro x. now apply checked_div_nonzero.
Qed.

Lemma znav_spec_affine (xs : list R) :
  xs <> [] ->
  exists mu c, 0 < c /\
    znav_spec (map VNum xs) = Some (map VNum (map (fun x => (x - mu) * c) xs)).
Proof.
  intro H. unfold znav_spec. rewrite available_nums, (mean_nonempty xs H).
  destruct (stdev_nonempty xs H) as (sd & Esd & Hsd). rewrite Esd. cbn [obind].
  set (mu := rsum xs / INR (List.length xs)). clearbody mu.
  destruct (standardized_affine mu sd Hsd) as (c & Hc & Hst).
  exists mu, c. split; [assumption|].
  clear H Esd. induction xs as [|x xs IH]; [reflexivity|].
  cbn [map mapM as_real]. rewrite Hst. cbn [option_map obind].
  rewrite IH. reflexivity.
Qed.

Lemma rank_spec_nums (zs : list R) :
  rank_spec (map VNum zs) = Some (map VInt (map (dense_rank zs) zs)).
Proof.
  unfold rank_spec. rewrite available_nums. f_equal.
  rewrite !map_map. reflexivity.
Qed.

(** *** Dense ranks of distinct values *)

Lemma Rltb_lt (x y : R) : Rltb x y = true <-> x < y.
Proof.
  unfold Rltb. destruct (Rlt_dec x y); split; intro; try assumption;
    try reflexivity; try discriminate; contradiction.
Qed.

Lemma dense_rank_distinct (zs : list R) (z : R) :
  NoDup zs ->
  dense_rank zs z = (1 + Z.of_nat (List.length (filter (fun y => Rltb y z) zs)))%Z.
Proof.
  intro H. unfold dense_rank.
  rewrite nodup_fixed_point by (now apply NoDup_filter). reflexivity.
Qed.

Lemma filter_length_le {A : Type} (p q : A -> bool) (l : list A) :
  (forall x, In x l -> p x = true -> q x = true) ->
  (List.length (filter p l) <= List.length (filter q l))%nat.
Proof.
  induction l as [|x l IH]; intro H; simpl; [lia|].
  assert (IH' := IH (fun y Hy => H y (or_intror Hy))).
  destruct (p x) eqn:Ep.
  - rewrite (H x (or_introl eq_refl) Ep). simpl. lia.
  - destruct (q x); simpl; lia.
Qed.

Lemma filter_length_lt {A : Type} (p q : A -> bool) (l : list A) (a : A) :
  (forall x, In x l -> p x = true -> q x = true) ->
  In a l -> p a = false -> q a = true ->
  (List.length (filter p l) < List.length (filter q l))%nat.
Proof.
  induction l as [|x l IH]; intros H Ha Hp Hq; [contradiction|].
  simpl. destruct Ha as [->|Ha].
  - rewrite Hp, Hq. simpl.
    pose proof (filter_length_le p q l (fun y Hy => H y (or_intror Hy))). lia.
  - assert (IH' := IH (fun y Hy => H y (or_intror Hy)) Ha Hp Hq).
    destruct (p x) eqn:Ep.
    + rewrite (H x (or_introl eq_refl) Ep). simpl. lia.
    + destruct (q x); simpl; lia.
Qed.

Lemma dense_rank_lt (zs : list R) (z z' : R) :
  NoDup zs -> In z zs -> z < z' -> (dense_rank zs z < dense_rank zs z')%Z.
Proof.
  intros Hnd Hz Hlt. rewrite !dense_rank_distinct by assumption.
  assert ((List.length (filter (fun y => Rltb y z) zs)
           < List.length (filter (fun y => Rltb y z') zs))%nat); [|lia].
  apply (filter_length_lt _ _ zs z).
  - intros x _ Hx. apply Rltb_lt in Hx. apply Rltb_lt. lra.
  - assumption.
  - apply not_true_is_false. rewrite Rltb_lt. lra.
  - now apply Rltb_lt.
Qed.

Lemma dense_rank_range (zs : list R) (z : R) :
  NoDup zs -> In z zs -> (1 <= dense_rank zs z <= Z.of_nat (List.length zs))%Z.
Proof.
  intros Hnd Hz. rewrite dense_rank_distinct by assumption.
  assert ((List.length (filter (fun y => Rltb y z) zs)
           < List.length (filter (fun _ => true) zs))%nat).
  { apply (filter_length_lt _ _ zs z); auto.
    apply not_true_is_false. rewrite Rltb_lt. lra. }
  rewrite (filter_all (fun _ => true) zs) in H by reflexivity. lia.
Qed.

Lemma dense_rank_order (zs : list R) (z z' : R) :
  NoDup zs -> In z zs -> In z' zs ->
  (z < z' <-> (dense_rank zs z < dense_rank zs z')%Z).
Proof.
  intros Hnd Hz Hz'. split; [now apply dense_rank_lt|].
  intro H. destruct (Rtotal_order z z') as [L|[E|G]]; [assumption| |].
  - subst. lia.
  - pose proof (dense_rank_lt zs z' z Hnd Hz' G). lia.
Qed.

Lemma dense_rank_lowest (zs : list R) (z : R) :
  NoDup zs -> In z zs ->
  (dense_rank zs z = 1%Z <-> forall z', In z' zs -> z <= z').
Proof.
  intros Hnd Hz. split.
  - intros H z' Hz'. destruct (Rle_or_lt z z') as [|G]; [assumption|].
    pose proof (dense_rank_lt zs z' z Hnd Hz' G).
    pose proof (dense_rank_range zs z' Hnd Hz'). lia.
  - intro H. rewrite dense_rank_distinct by assumption.
    rewrite (filter_none (fun y => Rltb y z) zs); [reflexivity|].
    intros y Hy. apply not_true_is_false. rewrite Rltb_lt.
    specialize (H y Hy). lra.
Qed.

Lemma NoDup_map_injective_on {A C : Type} (f : A -> C) (l : list A) :
  (forall x y, In x l -> In y l -> f x = f y -> x = y) ->
  NoDup l -> NoDup (map f l).
Proof.
  induction l as [|a l IH]; intros Hinj Hnd; simpl; [constructor|].
  inversion Hnd as [|? ? Hnotin Hnd']; subst. constructor.
  - intro Hin. apply in_map_iff in Hin. destruct Hin as (b & Eb & Hb).
    apply Hnotin. rewrite (Hinj a b); auto; [now left | now right].
  - apply IH; [|assumption]. intros x y Hx Hy. apply Hinj; now right.
Qed.

(** The dense ranks of pairwise distinct values are 1..n, each once. *)
Lemma dense_rank_permutation (zs : list R) :
  NoDup zs -> Permutation (map (dense_rank zs) zs) (zrange 1 (List.length zs)).
Proof.
  intro Hnd. apply NoDup_Permutation_bis.
  - apply NoDup_map_injective_on; [|assumption].
    intros x y Hx Hy E. destruct (Rtotal_order x y) as [L|[?|G]]; [|assumption|].
    + pose proof (dense_rank_lt zs x y Hnd Hx L). lia.
    + pose proof (dense_rank_lt zs y x Hnd Hy G). lia.
  - unfold zrange. rewrite !length_map, length_seq. lia.
  - intros r Hr. apply in_map_iff in Hr. destruct Hr as (z & <- & Hz).
    pose proof (dense_rank_range zs z Hnd Hz) as Hb.
    unfold zrange. apply in_map_iff.
    exists (Z.to_nat (dense_rank zs z - 1)). split; [lia|].
    apply in_seq. lia.
Qed.

End SpecRankFacts.

(** C3. With the rank function of the design document (standardize by
    z-score, then rank ascending), a factor whose values over a non-empty
    universe are pairwise distinct and non-missing gets ranks that are a
    permutation of 1..N: the standardization is an increasing affine map,
    a lower standardized value has a lower rank, and rank 1 goes to the
    lowest standardized value. *)
Theorem rank_func_is_bijection (D : DataService) (factor : item) (xs : list R) :
  let U := members D "UKX Index" in
  xs <> [] -> NoDup xs ->
  eval (B := SpecRank.backend) D U factor = Some (map VNum xs) ->
  exists (mu c : R) (zs : list R),
    (0 < c)%R /\ zs = map (fun x => ((x - mu) * c)%R) xs /\
    eval (B := SpecRank.backend) D U (IZnav (IGroup factor)) = Some (map VNum zs) /\
    eval (B := SpecRank.backend) D U (rank_func factor)
    = Some (map VInt (map (SpecRank.dense_rank zs) zs)) /\
    Permutation (map (SpecRank.dense_rank zs) zs) (zrange 1 (List.length xs)) /\
    (forall z z', In z zs -> In z' zs ->
                  ((z < z')%R <-> SpecRank.dense_rank zs z < SpecRank.dense_rank zs z')) /\
    (forall z, In z zs ->
               (SpecRank.dense_rank zs z = 1 <-> forall z', In z' zs -> (z <= z')%R)).
Proof.
  intros U Hne Hnd Hev.
  destruct (SpecRankFacts.znav_spec_affine xs Hne) as (mu & c & Hc & Hz).
  set (zs := map (fun x => ((x - mu) * c)%R) xs) in *.
  assert (Hndz : NoDup zs).
  { apply SpecRankFacts.NoDup_map_injective_on; [|assumption].
    intros x y _ _ E. apply Rmult_eq_reg_r in E; lra. }
  exists mu, c, zs.
  split; [assumption|]. split; [reflexivity|].
  split; [simpl; rewrite Hev; exact Hz|].
  split.
  { unfold rank_func. simpl. rewrite Hev. simpl.
    change (SpecRank.znav_spec (map VNum xs)) with (SpecRank.znav_spec (map VNum xs)).
    rewrite Hz. simpl. apply SpecRankFacts.rank_spec_nums. }
  split.
  { replace (List.length xs) with (List.length zs) by (unfold zs; apply length_map).
    now apply SpecRankFacts.dense_rank_permutation. }
  split.
  - intros z z' Hz1 Hz2. now apply SpecRankFacts.dense_rank_order.
  - intros z Hz1. now apply SpecRankFacts.dense_rank_lowest.
Qed.

Lemma rank_func_is_bijection_witness :
  exists (mu c : R) (zs : list R),
    (0 < c)%R /\ zs = map (fun x => ((x - mu) * c)%R) (map IZR [1; 2; 3; 4; 5]) /\
    eval (B := SpecRank.backend) Example.demo Example.universe
         (IZnav (IGroup (IData "px_last" []))) = Some (map VNum zs) /\
    eval (B := SpecRank.backend) Example.demo Example.universe
         (rank_func (IData "px_last" []))
    = Some (map VInt (map (SpecRank.dense_rank zs) zs)) /\
    Permutation (map (SpecRank.dense_rank zs) zs) (zrange 1 5) /\
    (forall z z', In z zs -> In z' zs ->
                  ((z < z')%R <-> SpecRank.dense_rank zs z < SpecRank.dense_rank zs z')) /\
    (forall z, In z zs ->
               (SpecRank.dense_rank zs z = 1 <-> forall z', In z' zs -> (z <= z')%R)).
Proof.
  apply (rank_func_is_bijection Example.demo (IData "px_last" []) (map IZR [1; 2; 3; 4; 5])).
  - discriminate.
  - repeat constructor; simpl; intuition lra.
  - reflexivity.
Defined.

(** C5. With the rank function of the design document, a factor with the
    same value for every identifier of a non-empty universe has zero
    deviation; the standardization divides by nothing and leaves every
    value at the centre, and the rank function returns a rank, the tied
    rank 1, for every identifier. *)
Theorem rank_func_zero_variance (D : DataService) (factor : item) (c : R) :
  let U := members D "UKX Index" in
  U <> [] ->
  eval (B := SpecRank.backend) D U factor = Some (map (fun _ => VNum c) U) ->
  SpecRank.stdev (map (fun _ => c) U) = Some 0%R /\
  eval (B := SpecRank.backend) D U (IZnav (IGroup factor))
  = Some (map (fun _ => VNum 0) U) /\
  eval (B := SpecRank.backend) D U (rank_func factor)
  = Some (map (fun _ => VInt 1) U).
Proof.
  intros U HU Hev.
  set (xs := map (fun _ : ident => c) U).
  assert (Hxs : xs <> []) by (unfold xs; destruct U; [contradiction | discriminate]).
  assert (Hcol : map (fun _ : ident => VNum c) U = map VNum xs)
    by (unfold xs; now rewrite map_map).
  assert (Hn : INR (List.length xs) <> 0%R).
  { apply not_0_INR. destruct xs; [contradiction | discriminate]. }
  assert (Hsum : SpecRank.rsum xs = (INR (List.length xs) * c)%R).
  { unfold xs. clear. induction U as [|u U IH]; [simpl; lra|].
    cbn [map SpecRank.rsum fold_right List.length]. fold (SpecRank.rsum (map (fun _ : ident => c) U)).
    rewrite IH, S_INR. lra. }
  assert (Hmean : SpecRank.mean xs = Some c).
  { rewrite (SpecRankFacts.mean_nonempty xs Hxs), Hsum. f_equal. now field. }
  assert (Hsq : SpecRank.rsum (map (fun x => ((x - c) * (x - c))%R) xs) = 0%R).
  { unfold xs. clear. induction U as [|u U IH]; [reflexivity|].
    cbn [map SpecRank.rsum fold_right].
    fold (SpecRank.rsum (map (fun x => ((x - c) * (x - c))%R) (map (fun _ : ident => c) U))).
    rewrite IH. lra. }
  assert (Hsd : SpecRank.stdev xs = Some 0%R).
  { unfold SpecRank.stdev. rewrite Hmean. cbn [obind]. rewrite Hsq.
    rewrite SpecRankFacts.checked_div_nonzero by assumption. cbn [obind].
    f_equal. replace (0 / INR (List.length xs))%R with 0%R by (now field).
    apply sqrt_0. }
  assert (Hz : SpecRank.znav_spec (map VNum xs) = Some (map (fun _ => VNum 0) U)).
  { unfold SpecRank.znav_spec. rewrite SpecRankFacts.available_nums, Hmean, Hsd.
    cbn [obind]. unfold xs. clear. induction U as [|u U IH]; [reflexivity|].
    cbn [map mapM as_real]. unfold SpecRank.standardized at 1.
    destruct (Req_dec_T 0 0) as [_|N]; [|contradiction].
    cbn [option_map obind]. rewrite IH. cbn [obind].
    do 3 f_equal. lra. }
  assert (Hr : SpecRank.rank_spec (map (fun _ : ident => VNum 0) U)
               = Some (map (fun _ => VInt 1) U)).
  { replace (map (fun _ : ident => VNum 0) U) with (map VNum (map (fun _ : ident => 0%R) U))
      by (now rewrite map_map).
    rewrite SpecRankFacts.rank_spec_nums. f_equal. rewrite !map_map.
    apply map_ext. intros _. f_equal. unfold SpecRank.dense_rank.
    rewrite (filter_none (fun y => SpecRank.Rltb y 0)); [reflexivity|].
    intros y Hy. apply in_map_iff in Hy. destruct Hy as (_ & <- & _).
    apply not_true_is_false. rewrite SpecRankFacts.Rltb_lt. lra. }
  split; [exact Hsd|].
  split.
  - simpl. rewrite Hev. simpl. rewrite Hcol. exact Hz.
  - unfold rank_func. simpl. rewrite Hev. simpl. rewrite Hcol, Hz. simpl. exact Hr.
Qed.

Lemma rank_func_zero_variance_witness :
  SpecRank.stdev (map (fun _ => 3%R) Example.universe) = Some 0%R /\
  eval (B := SpecRank.backend) Example.demo Example.universe
       (IZnav (IGroup (IData "flat" [])))
  = Some (map (fun _ => VNum 0) Example.universe) /\
  eval (B := SpecRank.backend) Example.demo Example.universe
       (rank_func (IData "flat" []))
  = Some (map (fun _ => VInt 1) Example.universe).
Proof.
  apply (rank_func_zero_variance Example.demo (IData "flat" []) 3%R).
  - discriminate.
  - reflexivity.
Defined.

(** * Further properties of the script *)

(** ** Conversions and products of line 47 *)

(** X1. [int(float(n))] gives back [n] for every count below 2^53: the
    conversion of the member count to a double loses nothing. *)
Theorem int_of_float_round_trip (N : Z) :
  0 <= N < 2 ^ 53 -> Binary64.to_int (Binary64.of_int N) = Some N.
Proof.
  intro H. destruct (Z.eq_dec N 0) as [->|Hne]; [reflexivity|].
  destruct (Binary64Facts.of_int_pos N ltac:(lia)) as (mN & E & Hm).
  rewrite E. cbn [Binary64.to_int cond_Zopp]. f_equal.
  assert (Hd : Zdigits2 N <= 53) by (apply Binary64Facts.Zdigits2_le; lia).
  rewrite Hm, Z.shiftl_div_pow2 by lia.
  replace (- (Zdigits2 N - 53)) with (53 - Zdigits2 N) by lia.
  apply Z.div_mul. apply Z.pow_nonzero; lia.
Qed.

Lemma int_of_float_round_trip_witness :
  0 <= 100 < 2 ^ 53 /\ Binary64.to_int (Binary64.of_int 100) = Some 100.
Proof.
  assert (H : 0 <= 100 < 2 ^ 53) by lia.
  split; [exact H | exact (int_of_float_round_trip 100 H)].
Defined.

(** X2. For every threshold percentage (a double between 0 and 1) and
    every count below 2^53, [int(p * n)] is the floor of the exact
    product or one more; one more does occur, at a third and n = 3. *)
Theorem threshold_rank_at_near_floor :
  (forall (p : Binary64.float) (N : Z),
      Binary64.percentage p = true -> 0 <= N < 2 ^ 53 ->
      exists T, threshold_rank_at p N = Some T /\
                Binary64.floor_product p N <= T <= Binary64.floor_product p N + 1) /\
  Binary64.percentage Binary64.third = true /\
  threshold_rank_at Binary64.third 3 = Some (Binary64.floor_product Binary64.third 3 + 1).
Proof.
  split; [|split; reflexivity].
  intros p N Hp HN. now apply threshold_rank_at_floor_or_next.
Qed.

Lemma threshold_rank_at_near_floor_witness :
  exists T, threshold_rank_at Binary64.lit_0_80 7 = Some T /\
            Binary64.floor_product Binary64.lit_0_80 7 <= T
            <= Binary64.floor_product Binary64.lit_0_80 7 + 1.
Proof.
  apply (proj1 threshold_rank_at_near_floor Binary64.lit_0_80 7).
  - reflexivity.
  - lia.
Defined.

(** ** Any number of criteria *)



(** X4. For any non-empty list of factor ranks, raising the threshold
    rank never removes an identifier from the filtered universe. *)
Theorem filtered_universe_grows_with_threshold {B : Backend} (D : DataService)
        (frs : list (item * (ident -> value))) (t1 t2 : Z) :
  let U := members D "UKX Index" in
  frs <> [] -> t1 <= t2 ->
  (forall fr, In fr frs -> eval D U (fst fr) = Some (map (snd fr) U)) ->
  exists u1 u2 F1 F2,
    filtered_univ (map fst frs) t1 = Some u1 /\ eval_univ D u1 = Some F1 /\
    filtered_univ (map fst frs) t2 = Some u2 /\ eval_univ D u2 = Some F2 /\
    incl F1 F2.
Proof.
  intros U Hne Ht Hev.
  destruct (filtered_univ_eval D U t1 frs eq_refl Hne Hev) as (u1 & E1 & F1).
  destruct (filtered_univ_eval D U t2 frs eq_refl Hne Hev) as (u2 & E2 & F2).
  exists u1, u2. do 2 eexists.
  repeat (split; [eassumption|]).
  intros id Hid. apply filter_In in Hid. apply filter_In.
  destruct Hid as [HU Hp]. split; [assumption|]. eapply passes_mono; eauto.
Qed.

Lemma filtered_universe_grows_with_threshold_witness :
  exists u1 u2 F1 F2,
    filtered_univ [IData "rank1" []] 2 = Some u1 /\
    eval_univ (B := Example.by_position) Example.demo u1 = Some F1 /\
    filtered_univ [IData "rank1" []] 3 = Some u2 /\
    eval_univ (B := Example.by_position) Example.demo u2 = Some F2 /\
    incl F1 F2.
Proof.
  apply (filtered_universe_grows_with_threshold (B := Example.by_position) Example.demo
           [(IData "rank1" [], field Example.demo "rank1" [])] 2 3).
  - discriminate.
  - lia.
  - intros fr [<-|[]]; reflexivity.
Defined.

(** ** What the 80% threshold keeps *)

Lemma filter_conj_length {A : Type} (p q r : A -> bool) (l : list A) :
  (List.length (filter p l) + List.length (filter q l) + List.length (filter r l)
   <= List.length (filter (fun x => p x && q x && r x) l) + 2 * List.length l)%nat /\
  (List.length (filter (fun x => p x && q x && r x) l) <= List.length (filter p l))%nat.
Proof.
  induction l as [|x l [IH1 IH2]]; simpl; [lia|].
  destruct (p x), (q x), (r x); simpl; lia.
Qed.

Lemma filter_map_comm_length {A C : Type} (g : C -> bool) (f : A -> C) (l : list A) :
  List.length (filter (fun x => g (f x)) l) = List.length (filter g (map f l)).
Proof.
  induction l as [|x l IH]; simpl; [reflexivity|].
  destruct (g (f x)); simpl; now rewrite IH.
Qed.

(** X5. When each of the three rank vectors is a permutation of 1..N
    (1 <= N below [max_members]), the filtered universe of the run has at
    most T = int(0.80 * N) members and at least 3T - 2N; T is below N, so an
    identifier ranked last (N) on any factor is never kept, and a
    one-member index is screened out entirely. *)
Theorem survivors_of_the_screen {B : Backend} (D : DataService)
        (r1 r2 r3 : ident -> value) :
  let U := members D "UKX Index" in
  let N := Z.of_nat (List.length U) in
  1 <= N < max_members ->
  eval D U (rank_func bq_avg_roe_2y) = Some (map r1 U) ->
  eval D U (rank_func bq_px_to_book) = Some (map r2 U) ->
  eval D U (rank_func bq_cash_per_asset) = Some (map r3 U) ->
  Permutation (map r1 U) (map VInt (zrange 1 (List.length U))) ->
  Permutation (map r2 U) (map VInt (zrange 1 (List.length U))) ->
  Permutation (map r3 U) (map VInt (zrange 1 (List.length U))) ->
  exists T u F,
    threshold_rank N = Some T /\ T < N /\
    filtered_univ factor_ranks T = Some u /\ eval_univ D u = Some F /\
    3 * T - 2 * N <= Z.of_nat (List.length F) <= T /\
    (forall id, r1 id = VInt N \/ r2 id = VInt N \/ r3 id = VInt N -> ~ In id F) /\
    (N = 1 -> F = []).
Proof.
  intros U N HN H1 H2 H3 P1 P2 P3.
  destruct (floor_four_fifths N ltac:(lia)) as [Hb Hex].
  set (T := 4 * N / 5) in *.
  assert (HT : T < N).
  { pose proof (Z.div_mod (4 * N) 5 ltac:(lia)).
    pose proof (Z.mod_pos_bound (4 * N) 5 ltac:(lia)). fold T in H. lia. }
  set (rs := [(rank_func bq_avg_roe_2y, r1); (rank_func bq_px_to_book, r2);
              (rank_func bq_cash_per_asset, r3)]).
  assert (Hev : forall fr, In fr rs -> eval D U (fst fr) = Some (map (snd fr) U)).
  { intros fr [<-|[<-|[<-|[]]]]; assumption. }
  destruct (filtered_univ_eval D U T rs eq_refl ltac:(discriminate) Hev) as (u & Eu & EF).
  change (map fst rs) with factor_ranks in Eu.
  exists T, u, (filter (passes (map snd rs) T) U).
  split; [apply threshold_rank_exact; lia|].
  split; [assumption|]. split; [assumption|]. split; [assumption|].
  assert (Hcnt : forall r, Permutation (map r U) (map VInt (zrange 1 (List.length U))) ->
                           Z.of_nat (List.length (filter (fun id => vle (r id) T) U)) = T).
  { intros r Hp.
    rewrite (filter_map_comm_length (fun v => vle v T) r U).
    rewrite (filter_length_perm _ _ _ Hp), count_ranks_le. fold N. lia. }
  assert (EFF : filter (passes (map snd rs) T) U
                = filter (fun id => vle (r1 id) T && vle (r2 id) T && vle (r3 id) T) U).
  { apply filter_ext. intro id. unfold passes; simpl.
    now rewrite andb_true_r, andb_assoc. }
  rewrite EFF.
  destruct (filter_conj_length (fun id => vle (r1 id) T) (fun id => vle (r2 id) T)
                               (fun id => vle (r3 id) T) U) as [Hlo Hhi].
  pose proof (Hcnt r1 P1) as C1. pose proof (Hcnt r2 P2) as C2.
  pose proof (Hcnt r3 P3) as C3.
  split; [fold N; lia|].
  split.
  - intros id Hlast Hin. apply filter_In in Hin. destruct Hin as [_ Hp].
    rewrite !andb_true_iff in Hp. destruct Hp as [[A1 A2] A3].
    destruct Hlast as [E|[E|E]].
    + rewrite E in A1. apply Z.leb_le in A1. lia.
    + rewrite E in A2. apply Z.leb_le in A2. lia.
    + rewrite E in A3. apply Z.leb_le in A3. lia.
  - intro E1.
    assert (Hz : List.length
                   (filter (fun id => vle (r1 id) T && vle (r2 id) T && vle (r3 id) T) U)
                 = 0%nat) by lia.
    now apply length_zero_iff_nil in Hz.
Qed.

Lemma survivors_of_the_screen_witness :
  exists T u F,
    threshold_rank 5 = Some T /\ T < 5 /\
    filtered_univ factor_ranks T = Some u /\
    eval_univ (B := Example.by_position) Example.demo u = Some F /\
    3 * T - 2 * 5 <= Z.of_nat (List.length F) <= T /\
    (forall id, VInt (Example.position id) = VInt 5 \/ VInt (Example.position id) = VInt 5
                \/ VInt (Example.position id) = VInt 5 -> ~ In id F) /\
    (5 = 1 -> F = []).
Proof.
  apply (survivors_of_the_screen (B := Example.by_position) Example.demo
           (fun id => VInt (Example.position id))
           (fun id => VInt (Example.position id))
           (fun id => VInt (Example.position id)));
    try reflexivity; try apply Permutation_refl.
  unfold max_members. simpl. lia.
Defined.

(** ** What a run sends and what a filter keeps *)

(** X6. The requests of a run depend on the data service only through
    the number of index members: two runs, on any two snapshots with any
    two services, that see the same member count submit the same
    requests. *)
Theorem requests_depend_on_count_only (B1 B2 : Backend) (D1 D2 : DataService) :
  List.length (members D1 "UKX Index") = List.length (members D2 "UKX Index") ->
  snd (bq_result_df (B := B1) D1 []) = snd (bq_result_df (B := B2) D2 []).
Proof.
  intro H. unfold bq_result_df.
  destruct (members D1 "UKX Index") as [|a U1] eqn:E1;
    destruct (members D2 "UKX Index") as [|b U2] eqn:E2; try discriminate H.
  - now rewrite (screening_empty (B := B1) D1 _ _ E1),
      (screening_empty (B := B2) D2 _ _ E2).
  - rewrite (screening_nonempty (B := B1) D1) by (rewrite E1; discriminate).
    rewrite (screening_nonempty (B := B2) D2) by (rewrite E2; discriminate).
    rewrite E1, E2, H.
    destruct (threshold_rank_at threshold_percentage _) as [t|]; [|reflexivity].
    destruct (filtered_univ factor_ranks t) as [u|]; reflexivity.
Qed.

Lemma requests_depend_on_count_only_witness :
  snd (bq_result_df (B := Example.by_position) Example.demo [])
  = snd (bq_result_df (B := SpecRank.backend)
           {| members := fun _ => ["V"; "W"; "X"; "Y"; "Z"];
              field := fun _ _ _ => VNA |} []).
Proof.
  apply (requests_depend_on_count_only Example.by_position SpecRank.backend).
  reflexivity.
Defined.

Lemma select_cons (u : ident) (U : list ident) (b : bool) (mask : list bool) :
  select (u :: U) (b :: mask) = if b then u :: select U mask else select U mask.
Proof. unfold select. simpl. destruct b; reflexivity. Qed.

Lemma select_NoDup (U : list ident) (mask : list bool) :
  NoDup U -> NoDup (select U mask).
Proof.
  revert mask. induction U as [|u U IH]; intros mask Hnd.
  - constructor.
  - destruct mask as [|b mask]; [constructor|].
    rewrite select_cons. inversion Hnd as [|? ? Hnotin Hnd']; subst.
    destruct b; [|now apply IH].
    constructor; [|now apply IH].
    intro Hin. apply Hnotin. now apply select_incl in Hin.
Qed.

Lemma select_length_le (U : list ident) (mask : list bool) :
  (List.length (select U mask) <= List.length U)%nat.
Proof.
  revert mask. induction U as [|u U IH]; intros mask; [simpl; lia|].
  destruct mask as [|b mask]; [simpl; lia|].
  rewrite select_cons. specialize (IH mask). destruct b; simpl; lia.
Qed.

(** X7. Whatever the criterion and the service, a filtered universe
    that evaluates holds only members of the universe it filters, no more
    of them, and none twice when that universe has none twice. *)
Theorem filter_never_adds {B : Backend} (D : DataService) (u : univ) (c : pred)
        (F : list ident) :
  eval_univ D (Filter u c) = Some F ->
  exists U, eval_univ D u = Some U /\ incl F U /\
            (List.length F <= List.length U)%nat /\ (NoDup U -> NoDup F).
Proof.
  simpl. destruct (eval_univ D u) as [U|]; [|discriminate]. simpl.
  destruct (holds D U c) as [mask|]; [|discriminate]. simpl.
  intros [= <-]. exists U. split; [reflexivity|].
  split; [apply select_incl|]. split; [apply select_length_le|].
  apply select_NoDup.
Qed.

Lemma filter_never_adds_witness :
  exists U, eval_univ (B := Example.by_position) Example.demo bq_univ = Some U /\
            incl ["A"; "B"] U /\ (2 <= List.length U)%nat /\ (NoDup U -> NoDup ["A"; "B"]).
Proof.
  apply (filter_never_adds (B := Example.by_position) Example.demo bq_univ
           (PLe (IData "rank1" []) 2) ["A"; "B"]).
  reflexivity.
Defined.

(** ** The frame of any response *)

Lemma union_index_In (seen labels : list ident) (x : ident) :
  In x (union_index seen labels) <-> In x seen \/ In x labels.
Proof.
  revert seen. induction labels as [|i rest IH]; intro seen; simpl.
  - tauto.
  - destruct (existsb (String.eqb i) seen) eqn:E.
    + rewrite IH. apply existsb_eqb_In in E. split; [tauto|].
      intros [H|[<-|H]]; tauto.
    + rewrite IH, in_app_iff. simpl. tauto.
Qed.

Lemma union_index_NoDup (seen labels : list ident) :
  NoDup seen -> NoDup (union_index seen labels).
Proof.
  revert seen. induction labels as [|i rest IH]; intros seen Hnd; simpl; [assumption|].
  destruct (existsb (String.eqb i) seen) eqn:E; [now apply IH|].
  apply IH. apply NoDup_app; [assumption | repeat constructor; intros [] |].
  intros x Hx [<-|[]].
  apply existsb_eqb_In in Hx. congruence.
Qed.

Lemma has_duplicates_NoDup (labels : list ident) :
  has_duplicates labels = false <-> NoDup labels.
Proof.
  induction labels as [|i rest IH]; simpl.
  - split; [constructor | reflexivity].
  - rewrite orb_false_iff, IH. split.
    + intros [Hi Hnd]. constructor; [|assumption].
      intro Hin. apply existsb_eqb_In in Hin. congruence.
    + intro Hnd. inversion Hnd as [|x l Hni Hnd']; subst. split; [|assumption].
      apply not_true_is_false. now rewrite existsb_eqb_In.
Qed.

Lemma nth_tl (k : nat) (c : list value) : nth k (tl c) VNA = nth (S k) c VNA.
Proof. destruct c as [|x c]; [now destruct k | reflexivity]. Qed.

Lemma zip_rows_nth (index : list ident) (cols : list (list value)) (k : nat) :
  nth_error (zip_rows index cols) k
  = option_map (fun i => (i, map (fun c => nth k c VNA) cols)) (nth_error index k).
Proof.
  revert cols k. induction index as [|i index IH]; intros cols k.
  - now destruct k.
  - destruct k as [|k]; cbn [zip_rows nth_error option_map].
    + do 2 f_equal. apply map_ext. now intros [|x c].
    + rewrite IH, map_map. destruct (nth_error index k); [|reflexivity].
      cbn [option_map]. do 2 f_equal. apply map_ext. intro c. apply nth_tl.
Qed.

Lemma lookup_nth (s : Series) (k : nat) (id : ident) :
  NoDup (map fst s) -> nth_error (map fst s) k = Some id ->
  lookup id s = nth k (map snd s) VNA.
Proof.
  unfold lookup. revert k. induction s as [|[i v] s IH]; intros k Hnd Hk.
  - now destruct k.
  - cbn [map fst] in Hnd, Hk. inversion Hnd as [|x l Hni Hnd']; subst.
    destruct k as [|k]; cbn [nth_error] in Hk.
    + injection Hk as ->. cbn [find fst]. now rewrite String.eqb_refl.
    + cbn [find fst]. destruct (String.eqb_spec i id) as [->|Hne].
      * exfalso. apply Hni. eapply nth_error_In. exact Hk.
      * cbn [map snd nth]. now apply IH.
Qed.

Lemma shared_index_forallb (sir0 : SingleItemResponse) (rest : list SingleItemResponse) :
  forallb (fun s : string * Series => index_eqb (map fst (snd s)) (map fst (df sir0)))
          (map (fun sir => (name sir, df sir)) rest) = true
  <-> forall sir, In sir rest -> map fst (df sir) = map fst (df sir0).
Proof.
  rewrite forallb_forall. split.
  - intros H sir Hin. apply index_eqb_eq.
    apply (H (name sir, df sir)). apply in_map_iff. now exists sir.
  - intros H s Hin. apply in_map_iff in Hin. destruct Hin as (sir & <- & Hin).
    apply index_eqb_eq. now apply H.
Qed.



(** ** The ordered dictionary of items *)

Lemma od_set_keys (d : list (string * item)) (key : string) (v : item) :
  map fst (od_set d key v)
  = if existsb (String.eqb key) (map fst d) then map fst d
    else (map fst d ++ [key])%list.
Proof.
  induction d as [|[k w] d IH]; [reflexivity|].
  cbn [od_set map fst existsb]. rewrite (String.eqb_sym key k).
  destruct (String.eqb_spec k key) as [->|Hne]; [reflexivity|].
  cbn [map fst orb]. rewrite IH.
  destruct (existsb (String.eqb key) (map fst d)); reflexivity.
Qed.

(** X9. An assignment [d[key] = v] to the ordered dictionary leaves the
    labels distinct, binds [key] to [v], leaves the items of the other
    labels alone, and keeps the order: a known label stays in place, a
    new one goes last. *)
Theorem od_set_keeps_order (d : list (string * item)) (key : string) (v : item) :
  NoDup (map fst d) ->
  NoDup (map fst (od_set d key v)) /\
  In (key, v) (od_set d key v) /\
  (forall w, In (key, w) (od_set d key v) -> w = v) /\
  (forall k w, k <> key -> (In (k, w) (od_set d key v) <-> In (k, w) d)) /\
  map fst (od_set d key v)
  = (if existsb (String.eqb key) (map fst d) then map fst d
     else (map fst d ++ [key])%list).
Proof.
  intro Hnd.
  assert (Hin : In (key, v) (od_set d key v)).
  { clear Hnd. induction d as [|[k w] d IH]; [now left|].
    cbn [od_set]. destruct (String.eqb_spec k key) as [->|Hne]; [now left | now right]. }
  assert (Hother : forall k w, k <> key -> (In (k, w) (od_set d key v) <-> In (k, w) d)).
  { clear Hnd Hin. intros k w Hk. induction d as [|[k' w'] d IH].
    - simpl. split; [intros [[= E _]|[]]; congruence | intros []].
    - cbn [od_set]. destruct (String.eqb_spec k' key) as [->|Hne]; simpl.
      + split; (intros [[= E _]|H]; [congruence | now right]).
      + rewrite IH. tauto. }
  assert (Hkeys : NoDup (map fst (od_set d key v))).
  { rewrite od_set_keys.
    destruct (existsb (String.eqb key) (map fst d)) eqn:E; [assumption|].
    apply NoDup_app; [assumption | repeat constructor; intros [] |].
    intros x Hx [<-|[]]. apply existsb_eqb_In in Hx. congruence. }
  split; [exact Hkeys|]. split; [exact Hin|]. split; [|split; [exact Hother|apply od_set_keys]].
  intros w Hw.
  destruct (In_nth _ _ (key, v) Hin) as (i & Hi & Ei).
  destruct (In_nth _ _ (key, v) Hw) as (j & Hj & Ej).
  assert (Eij : i = j).
  { apply (proj1 (NoDup_nth (map fst (od_set d key v)) key) Hkeys);
      rewrite ?length_map; try assumption.
    change key with (fst (key, v)) at 2 4.
    rewrite !map_nth, Ei, Ej. reflexivity. }
  subst j. rewrite Ei in Ej. now injection Ej as ->.
Qed.

Lemma od_set_keeps_order_witness :
  NoDup (map fst (od_set items_ordered_dict "PX_BOOK_VALUE" bq_cash_per_asset)) /\
  In ("PX_BOOK_VALUE", bq_cash_per_asset)
     (od_set items_ordered_dict "PX_BOOK_VALUE" bq_cash_per_asset) /\
  (forall w, In ("PX_BOOK_VALUE", w)
                (od_set items_ordered_dict "PX_BOOK_VALUE" bq_cash_per_asset) ->
             w = bq_cash_per_asset) /\
  (forall k w, k <> "PX_BOOK_VALUE" ->
               (In (k, w) (od_set items_ordered_dict "PX_BOOK_VALUE" bq_cash_per_asset)
                <-> In (k, w) items_ordered_dict)) /\
  map fst (od_set items_ordered_dict "PX_BOOK_VALUE" bq_cash_per_asset)
  = (if existsb (String.eqb "PX_BOOK_VALUE") (map fst items_ordered_dict)
     then map fst items_ordered_dict
     else (map fst items_ordered_dict ++ ["PX_BOOK_VALUE"])%list).
Proof.
  apply (od_set_keeps_order items_ordered_dict "PX_BOOK_VALUE" bq_cash_per_asset).
  repeat constructor; simpl; intuition discriminate.
Defined.
